(** * Coverage binning and Delaunay row tables of ice-tracker-deformations

    A shallow embedding of

    - [src/SatelliteCoverage/coverage_frequency_map.py]
      ([get_map_bins], [coverage_histogram2d], [coverage_timeseries],
      [interval_frequency_histogram2d]), and
    - [src/d02_delaunay_triangulation.py] (the body that turns one raw
      file's points into the rows of the output table).

    Conventions of the embedding.

    - A Python call that may raise is a value of [result A]: [Ok a] or
      [Raise e], with [e] the class of the exception.
    - A finite [float64] is an exact rational ([Q]); rounding is not
      modelled.  Where the code can produce [inf] or [nan] (a numpy
      division by zero only warns) the value is a [float64] with its
      special values.
    - A numpy array of coordinates is a [list Q]; a histogram (whose
      cells hold whole counts) is an [ndarray] of [nat] together with
      its shape.
    - Functions of modules that are not part of these sources
      ([compile_data], [convert_to_grid], the pyproj projection and
      [scipy.spatial.Delaunay]) are parameters. *)

From Stdlib Require Import String Bool Arith PeanoNat ZArith QArith Qround Qminmax Lia List Permutation.
Import ListNotations.

Set Implicit Arguments.

(** ** Exceptions and the error monad *)

Inductive exn : Type :=
| ValueError
| KeyError
| IndexError
| ZeroDivisionError
| OverflowError
| QhullError
| DataFileError
| InsufficientDataError
| InsufficientPointsError.

Inductive result (A : Type) : Type :=
| Ok (a : A)
| Raise (e : exn).

Arguments Ok {A} a.
Arguments Raise {A} e.

Definition bind {A B : Type} (r : result A) (k : A -> result B) : result B :=
  match r with
  | Ok a => k a
  | Raise e => Raise e
  end.

Notation "x <- r ;; k" := (bind r (fun x => k))
  (at level 61, r at next level, right associativity).

(** ** The numpy operations the code calls *)

Module Numpy.

Local Open Scope Q_scope.

(** A float64 that may be one of the IEEE special values. *)
Inductive float64 : Type :=
| Fin (q : Q)
| PInf
| NInf
| NaN.

Definition fneg (a : float64) : float64 :=
  match a with
  | Fin q => Fin (- q)
  | PInf => NInf
  | NInf => PInf
  | NaN => NaN
  end.

Definition fadd (a b : float64) : float64 :=
  match a, b with
  | NaN, _ | _, NaN => NaN
  | PInf, NInf | NInf, PInf => NaN
  | PInf, _ | _, PInf => PInf
  | NInf, _ | _, NInf => NInf
  | Fin x, Fin y => Fin (x + y)
  end.

Definition fsub (a b : float64) : float64 := fadd a (fneg b).

(** The sign of a finite value, zero counted as positive. *)
Definition nonneg (q : Q) : bool := Qle_bool 0 q.

Definition is_zero (q : Q) : bool := Qeq_bool q 0.

(** [a / b] on numpy scalars: a zero divisor gives [inf] or [nan]
    (with a warning, which the module silences), never an exception. *)
Definition fdiv (a b : float64) : float64 :=
  match a, b with
  | NaN, _ | _, NaN => NaN
  | Fin x, Fin y =>
      if is_zero y then
        if is_zero x then NaN else if nonneg x then PInf else NInf
      else Fin (x / y)
  | Fin _, _ => Fin 0
  | PInf, Fin y => if nonneg y then PInf else NInf
  | NInf, Fin y => if nonneg y then NInf else PInf
  | _, _ => NaN
  end.

(** [np.min] and [np.max]: a zero-size array has no minimum. *)
Definition np_min (a : list Q) : result Q :=
  match a with
  | [] => Raise ValueError
  | x :: a' => Ok (fold_left Qmin a' x)
  end.

Definition np_max (a : list Q) : result Q :=
  match a with
  | [] => Raise ValueError
  | x :: a' => Ok (fold_left Qmax a' x)
  end.

(** [np.arange(start, stop, step)]: the length is
    [ceil((stop - start) / step)]; a [nan] length is a [ValueError],
    an infinite one an [OverflowError], a length of zero or less the
    empty array.  Element [i] is [start + i * step]. *)
Definition arange_values (start step : Q) (len : nat) : list Q :=
  map (fun i => start + inject_Z (Z.of_nat i) * step) (seq 0 len).

Definition arange (start stop step : float64) : result (list Q) :=
  match fdiv (fsub stop start) step with
  | NaN => Raise ValueError
  | PInf | NInf => Raise OverflowError
  | Fin v =>
      match start, step with
      | Fin s, Fin d => Ok (arange_values s d (Z.to_nat (Qceiling v)))
      | _, _ => Ok []
      end
  end.

(** *** Arrays of counts

    A histogram is a float array whose cells hold whole numbers; the
    cells are kept as [nat].  [Arr1 v] has shape [(length v,)],
    [Arr2 nx ny rows] has shape [(nx, ny)] and [nx] rows of [ny]
    cells. *)
Inductive ndarray : Type :=
| Arr1 (v : list nat)
| Arr2 (nx ny : nat) (rows : list (list nat)).

Definition tabulate2 (nx ny : nat) (f : nat -> nat -> nat) : ndarray :=
  Arr2 nx ny (map (fun i => map (f i) (seq 0 ny)) (seq 0 nx)).

Definition zeros (shape : nat * nat) : ndarray :=
  tabulate2 (fst shape) (snd shape) (fun _ _ => 0%nat).

(** The shape as broadcasting sees it: a 1-d array is a single row. *)
Definition shape2 (a : ndarray) : nat * nat :=
  match a with
  | Arr1 v => (1%nat, length v)
  | Arr2 nx ny _ => (nx, ny)
  end.

Definition cell (a : ndarray) (i j : nat) : nat :=
  match a with
  | Arr1 v => nth j v 0%nat
  | Arr2 _ _ rows => nth j (nth i rows []) 0%nat
  end.

(** The cells in C order. *)
Definition flat (a : ndarray) : list nat :=
  match a with
  | Arr1 v => v
  | Arr2 _ _ rows => concat rows
  end.

Definition map_cells (f : nat -> nat) (a : ndarray) : ndarray :=
  match a with
  | Arr1 v => Arr1 (map f v)
  | Arr2 nx ny rows => Arr2 nx ny (map (map f) rows)
  end.

(** [a[cond(a)] = value] *)
Definition assign_where (cond : nat -> bool) (value : nat) (a : ndarray)
  : ndarray :=
  map_cells (fun c => if cond c then value else c) a.

(** [a.resize(shape)], in place: the old cells in C order, then zeros. *)
Definition resize (a : ndarray) (shape : nat * nat) : ndarray :=
  let '(nx, ny) := shape in
  tabulate2 nx ny (fun i j => nth (i * ny + j) (flat a) 0%nat).

(** Broadcasting of one dimension: equal sizes, or one of them 1. *)
Definition broadcast_dim (a b : nat) : option nat :=
  if (a =? b)%nat then Some a
  else if (a =? 1)%nat then Some b
  else if (b =? 1)%nat then Some a
  else None.

Definition broadcast_index (dim i : nat) : nat :=
  if (dim =? 1)%nat then 0%nat else i.

(** [a + b] with numpy's broadcasting; shapes that cannot be broadcast
    together are a [ValueError]. *)
Definition np_add (a b : ndarray) : result ndarray :=
  let '(a1, a2) := shape2 a in
  let '(b1, b2) := shape2 b in
  match broadcast_dim a1 b1, broadcast_dim a2 b2 with
  | Some n1, Some n2 =>
      let f i j :=
        (cell a (broadcast_index a1 i) (broadcast_index a2 j)
         + cell b (broadcast_index b1 i) (broadcast_index b2 j))%nat in
      match a, b with
      | Arr1 _, Arr1 _ => Ok (Arr1 (map (f 0%nat) (seq 0 n2)))
      | _, _ => Ok (tabulate2 n1 n2 f)
      end
  | _, _ => Raise ValueError
  end.

(** [len(np.flatnonzero(a))] *)
Definition count_nonzero (a : ndarray) : nat :=
  length (filter (fun c => negb (c =? 0)%nat) (flat a)).

(** *** np.histogram2d with explicit bin edges *)

(** [not np.any(edges[:-1] > edges[1:])] *)
Fixpoint monotone (edges : list Q) : bool :=
  match edges with
  | a :: (b :: _) as tl => Qle_bool a b && monotone tl
  | _ => true
  end.

(** [np.searchsorted(edges, v, side='right')] on monotone edges: the
    number of leading edges that are [<= v]. *)
Fixpoint searchsorted_right (edges : list Q) (v : Q) : nat :=
  match edges with
  | [] => 0%nat
  | e :: edges' =>
      if Qle_bool e v then S (searchsorted_right edges' v) else 0%nat
  end.

(** The bin number of a sample: 0 is the outlier bin below the first
    edge, [length edges] the one above the last edge; a sample on the
    last edge is moved into the last proper bin. *)
Definition bin_number (edges : list Q) (v : Q) : nat :=
  let k := searchsorted_right edges v in
  if Qeq_bool v (last edges 0) then (k - 1)%nat else k.

Definition same_bin (p q : nat * nat) : bool :=
  ((fst p =? fst q) && (snd p =? snd q))%nat.

(** The count of one proper cell: cell [(i, j)] of the result is
    cell [(i+1, j+1)] of the histogram with its outlier bins. *)
Definition cell_count (Ncount : list (nat * nat)) (i j : nat) : nat :=
  length (filter (same_bin (S i, S j)) Ncount).

Definition histogram2d (x y : list Q) (bins : list Q * list Q)
  : result ndarray :=
  let '(xedges, yedges) := bins in
  if negb (length x =? length y)%nat then Raise ValueError
  else if negb (monotone xedges) then Raise ValueError
  else if negb (monotone yedges) then Raise ValueError
  else
    match xedges, yedges with
    | [], _ | _, [] => Raise IndexError
    | _ :: _, _ :: _ =>
        let Ncount :=
          combine (map (bin_number xedges) x) (map (bin_number yedges) y) in
        Ok (tabulate2 (length xedges - 1) (length yedges - 1)
              (cell_count Ncount))
    end.

End Numpy.

(** ** coverage_frequency_map.py *)

Module Coverage.

Import Numpy.
Local Open Scope Q_scope.

(** Upper and lower extents of the map, in metres. *)
Definition lxextent : Z := -4400000.
Definition uxextent : Z := 2500000.
Definition uyextent : Z := 3500000.
Definition lyextent : Z := -2500000.

(** [math.floor(scale / (1000 * float(resolution)))]: a Python float
    division, which raises on a zero divisor. *)
Definition floor_div (scale : Z) (divisor : Q) : result Z :=
  if is_zero divisor then Raise ZeroDivisionError
  else Ok (Qfloor (inject_Z scale / divisor)).

Definition get_map_bins (xy : list Q * list Q) (resolution : Q)
  : result (list Q * list Q) :=
  let xscale := (uxextent - lxextent)%Z in
  let yscale := (uyextent - lyextent)%Z in
  xscale <- floor_div xscale (1000 * resolution) ;;
  yscale <- floor_div yscale (1000 * resolution) ;;
  let '(xi, yj) := xy in
  xmax <- np_max xi ;;
  xmin <- np_min xi ;;
  let dxi := fdiv (Fin (xmax - xmin)) (Fin (inject_Z xscale)) in
  ymax <- np_max yj ;;
  ymin <- np_min yj ;;
  let dyj := fdiv (Fin (ymax - ymin)) (Fin (inject_Z yscale)) in
  xbins_out <- arange (Fin xmin) (fadd (Fin xmax) dxi) dxi ;;
  ybins_out <- arange (Fin ymin) (fadd (Fin ymax) dyj) dyj ;;
  Ok (xbins_out, ybins_out).

(** Returns histogram of coverage representing the arctic ocean. *)
Definition coverage_histogram2d (xy : list Q * list Q)
  (xbins_map ybins_map : list Q) : result ndarray :=
  let '(xi, yj) := xy in
  H <- histogram2d xi yj (xbins_map, ybins_map) ;;
  let H := assign_where (fun c => 1 <? c)%nat 1%nat H in
  Ok H.

(** *** The interval loops

    The loader [compile_data] and the projection [convert_to_grid] come
    from modules outside these sources and are parameters.  A pandas
    table is its columns by name; [df[name]] on a missing column is a
    [KeyError]. *)

Definition DataFrame : Type := list (string * list Q).

Fixpoint column (df : DataFrame) (name : string) : result (list Q) :=
  match df with
  | [] => Raise KeyError
  | (n, values) :: df' =>
      if String.eqb n name then Ok values else column df' name
  end.

(** [a[i]] on a Python list *)
Definition item {A : Type} (a : list A) (i : nat) : result A :=
  match nth_error a i with
  | Some v => Ok v
  | None => Raise IndexError
  end.

Section Intervals.

Variable Files : Type.
Variable Date : Type.
Variable compile_data : Files -> DataFrame.
Variable convert_to_grid : list Q -> list Q -> list Q * list Q.

Variables xbins_map ybins_map : list Q.

(** The loading of one interval: [compile_data], then the body of the
    [try]. *)
Definition interval_xy (files : Files) : result (list Q * list Q) :=
  let interval_df := compile_data files in
  lon <- column interval_df "lon" ;;
  lat <- column interval_df "lat" ;;
  Ok (convert_to_grid lon lat).

Definition timeseries_row : Type := (Q * Date * Date)%type.

(** The ocean area in units of histogram cells:
    [15558000 / int(resolution) ** 2]. *)
Definition arctic_ocean_area (resolution : Z) : result Q :=
  if (resolution ^ 2 =? 0)%Z then Raise ZeroDivisionError
  else Ok (15558000 / inject_Z (resolution ^ 2)).

Definition covered_percentage (area : Q) (histogram : ndarray) : Q :=
  let covered_area := count_nonzero histogram in
  (inject_Z (Z.of_nat covered_area) / area) * 100.

(** The loop of [coverage_timeseries] from index [i] on, [rest] being
    [interval_list[i:]] and [df] the table so far. *)
Fixpoint timeseries_loop (area : Q) (date_pairs : list (Date * Date))
  (i : nat) (rest : list Files) (df : list timeseries_row)
  : result (list timeseries_row) :=
  match rest with
  | [] => Ok df
  | files :: rest' =>
      match interval_xy files with
      | Raise KeyError => timeseries_loop area date_pairs (S i) rest' df
      | Raise e => Raise e
      | Ok xy =>
          histogram <- coverage_histogram2d xy xbins_map ybins_map ;;
          let percentage := covered_percentage area histogram in
          dates <- item date_pairs i ;;
          let start_date := fst dates in
          let end_date := snd dates in
          timeseries_loop area date_pairs (S i) rest'
            (df ++ [(percentage, start_date, end_date)])
      end
  end.

(** [coverage_timeseries], up to the table that is plotted. *)
Definition coverage_timeseries (interval_list : list Files)
  (resolution : Z) (date_pairs : list (Date * Date))
  : result (list timeseries_row) :=
  area <- arctic_ocean_area resolution ;;
  timeseries_loop area date_pairs 0 interval_list [].

(** The loop of [interval_frequency_histogram2d] from index [i] on. *)
Fixpoint frequency_loop (i : nat) (rest : list Files) (H : ndarray)
  : result ndarray :=
  match rest with
  | [] => Ok H
  | files :: rest' =>
      match interval_xy files with
      | Raise KeyError => frequency_loop (S i) rest' H
      | Raise e => Raise e
      | Ok xy =>
          histogram <- coverage_histogram2d xy xbins_map ybins_map ;;
          let histogram := assign_where (fun c => 0 <? c)%nat 1%nat histogram in
          let H := if (i =? 0)%nat then resize H (shape2 histogram) else H in
          H <- np_add H histogram ;;
          frequency_loop (S i) rest' H
      end
  end.

(** The summed histogram of [interval_frequency_histogram2d], as it
    stands when the loop ends. *)
Definition interval_frequency_sum (interval_list : list Files)
  : result ndarray :=
  frequency_loop 0 interval_list (Arr1 []).

(** What is plotted for one cell: no value where the sum is 0, else the
    percentage of [len(interval_list)]. *)
Definition frequency_percent (n_intervals : nat) (c : nat) : option Q :=
  if (c =? 0)%nat then None
  else Some (inject_Z (Z.of_nat c) * 100 / inject_Z (Z.of_nat n_intervals)).

Definition interval_frequency_histogram2d (interval_list : list Files)
  : result (list (list (option Q))) :=
  H <- interval_frequency_sum interval_list ;;
  let '(nx, ny) := shape2 H in
  Ok (map (fun j =>
             map (fun i => frequency_percent (length interval_list) (cell H i j))
               (seq 0 nx))
        (seq 0 ny)).

(** *** What the loops are expected to do *)

(** The interval is loaded: the [try] does not raise. *)
Definition loaded (files : Files) : bool :=
  match interval_xy files with
  | Ok _ => true
  | Raise _ => false
  end.

(** A loaded interval has as many x as y coordinates. *)
Definition paired (intervals : list Files) : Prop :=
  forall files xi yj,
    In files intervals -> interval_xy files = Ok (xi, yj) ->
    length xi = length yj.

(** The number of intervals whose histogram has been added. *)
Definition accumulated (intervals : list Files) : nat :=
  length (filter loaded intervals).

(** The row of one interval and its pair of dates, if it has one. *)
Definition interval_row (area : Q) (entry : Files * (Date * Date))
  : option timeseries_row :=
  match interval_xy (fst entry) with
  | Ok xy =>
      match coverage_histogram2d xy xbins_map ybins_map with
      | Ok histogram =>
          Some (covered_percentage area histogram,
                fst (snd entry), snd (snd entry))
      | Raise _ => None
      end
  | Raise _ => None
  end.

(** The rows of the intervals that have one, in the order of the
    intervals. *)
Definition rows_in_order (area : Q) (entries : list (Files * (Date * Date)))
  : list timeseries_row :=
  flat_map (fun entry =>
              match interval_row area entry with
              | Some row => [row]
              | None => []
              end) entries.

End Intervals.

(** Every cell is at most [n]. *)
Definition all_le (n : nat) (a : ndarray) : Prop :=
  Forall (fun c => (c <= n)%nat) (flat a).

(** *** A loader for concrete runs

    The loops are run on concrete intervals with this loader: an
    interval is the list of the points that its files hold, a table
    without files has no columns, and the projection is the identity. *)
Definition points_table (points : list (Q * Q)) : DataFrame :=
  match points with
  | [] => []
  | _ :: _ => [("lat"%string, map snd points); ("lon"%string, map fst points)]
  end.

Definition plain_grid (lon lat : list Q) : list Q * list Q := (lon, lat).

End Coverage.

(** ** d02_delaunay_triangulation.py *)

Module Triangulation.

Import Coverage.
Local Open Scope Q_scope.

(** One data row of the output table. *)
Record triangle_row : Type := TriangleRow {
  no : nat;
  sX1_aeqd : Q;
  sX2_aeqd : Q;
  sX3_aeqd : Q;
  sY1_aeqd : Q;
  sY2_aeqd : Q;
  sY3_aeqd : Q;
  vertice_idx1 : nat;
  vertice_idx2 : nat;
  vertice_idx3 : nat
}.

Inductive csv_row : Type :=
| HeaderRow (names : list string)
| DataRow (r : triangle_row).

Definition header : list string :=
  ["no."; "sX1_aeqd"; "sX2_aeqd"; "sX3_aeqd";
   "sY1_aeqd"; "sY2_aeqd"; "sY3_aeqd";
   "vertice_idx1"; "vertice_idx2"; "vertice_idx3"]%string.

Definition simplex : Type := (nat * nat * nat)%type.

(** The loop over [range(len(tri.simplices))] from [n] on, [rest] being
    [tri.simplices[n:]]. *)
Fixpoint triangles_loop (sX_aeqd sY_aeqd : list Q) (n : nat)
  (rest : list simplex) (row_list : list csv_row) : result (list csv_row) :=
  match rest with
  | [] => Ok row_list
  | (vertice_idx1, vertice_idx2, vertice_idx3) :: rest' =>
      sX1_aeqd <- item sX_aeqd vertice_idx1 ;;
      sX2_aeqd <- item sX_aeqd vertice_idx2 ;;
      sX3_aeqd <- item sX_aeqd vertice_idx3 ;;
      sY1_aeqd <- item sY_aeqd vertice_idx1 ;;
      sY2_aeqd <- item sY_aeqd vertice_idx2 ;;
      sY3_aeqd <- item sY_aeqd vertice_idx3 ;;
      triangles_loop sX_aeqd sY_aeqd (S n) rest'
        (row_list ++
           [DataRow (TriangleRow n sX1_aeqd sX2_aeqd sX3_aeqd
                       sY1_aeqd sY2_aeqd sY3_aeqd
                       vertice_idx1 vertice_idx2 vertice_idx3)])
  end.

Section OneFile.

(** The projection object [p] (pyproj) and [scipy.spatial.Delaunay],
    whose result is read through [tri.simplices]. *)
Variable p : list Q -> list Q -> list Q * list Q.
Variable Delaunay : list (Q * Q) -> result (list simplex).

(** The body of the loop of [delaunay_triangulation] for one raw file,
    from the loaded starting points to the rows handed to the writer. *)
Definition triangulate_file (sLat sLon : list Q) : result (list csv_row) :=
  let '(sX_aeqd, sY_aeqd) := p sLon sLat in
  let sXY_aeqd := combine sX_aeqd sY_aeqd in
  simplices <- Delaunay sXY_aeqd ;;
  let row_list := [HeaderRow header] in
  triangles_loop sX_aeqd sY_aeqd 0 simplices row_list.

End OneFile.

(** The data rows of a table, in order. *)
Fixpoint data_rows (row_list : list csv_row) : list triangle_row :=
  match row_list with
  | [] => []
  | HeaderRow _ :: rows => data_rows rows
  | DataRow r :: rows => r :: data_rows rows
  end.

(** *** What the rows are expected to be *)

(** The stored coordinates of a row are those of the projected arrays
    at the stored indices. *)
Definition row_from_arrays (sX_aeqd sY_aeqd : list Q) (r : triangle_row)
  : Prop :=
  item sX_aeqd (vertice_idx1 r) = Ok (sX1_aeqd r) /\
  item sX_aeqd (vertice_idx2 r) = Ok (sX2_aeqd r) /\
  item sX_aeqd (vertice_idx3 r) = Ok (sX3_aeqd r) /\
  item sY_aeqd (vertice_idx1 r) = Ok (sY1_aeqd r) /\
  item sY_aeqd (vertice_idx2 r) = Ok (sY2_aeqd r) /\
  item sY_aeqd (vertice_idx3 r) = Ok (sY3_aeqd r).

(** Row [k] of the rows made from [n] on: its number, its simplex and
    its coordinates. *)
Definition rows_from (sX_aeqd sY_aeqd : list Q) (n : nat)
  (simplices : list simplex) (new : list triangle_row) : Prop :=
  length new = length simplices /\
  forall k r, nth_error new k = Some r ->
    no r = (n + k)%nat /\
    nth_error simplices k
    = Some (vertice_idx1 r, vertice_idx2 r, vertice_idx3 r) /\
    row_from_arrays sX_aeqd sY_aeqd r.

(** The vertex indices of a simplex are indices of the point arrays. *)
Definition in_range (sX_aeqd sY_aeqd : list Q) (t : simplex) : Prop :=
  let '(i, j, k) := t in
  ((i < length sX_aeqd /\ j < length sX_aeqd /\ k < length sX_aeqd) /\
   (i < length sY_aeqd /\ j < length sY_aeqd /\ k < length sY_aeqd))%nat.

(** *** A reference triangulation

    Used to run the code above on concrete points: every triple of
    points that is not collinear and whose circumcircle holds no other
    point, in index order; no such triple is a Qhull error, as is an
    input of fewer than three points. *)

Definition orient (a b c : Q * Q) : Q :=
  (fst b - fst a) * (snd c - snd a) - (snd b - snd a) * (fst c - fst a).

Definition norm2 (a : Q * Q) : Q := fst a * fst a + snd a * snd a.

Definition det3 (a b c d e f g h i : Q) : Q :=
  a * (e * i - f * h) - b * (d * i - f * g) + c * (d * h - e * g).

(** Positive exactly when [d] is strictly inside the circle through
    [a], [b], [c]. *)
Definition in_circle (a b c d : Q * Q) : Q :=
  let r (u : Q * Q) := (fst u - fst d, snd u - snd d) in
  orient a b c *
  det3 (fst (r a)) (snd (r a)) (norm2 (r a))
       (fst (r b)) (snd (r b)) (norm2 (r b))
       (fst (r c)) (snd (r c)) (norm2 (r c)).

Definition Qpos_bool (q : Q) : bool := negb (Qle_bool q 0).

Definition is_delaunay (pts : list (Q * Q)) (t : simplex) : bool :=
  let '(i, j, k) := t in
  let a := nth i pts (0, 0) in
  let b := nth j pts (0, 0) in
  let c := nth k pts (0, 0) in
  negb (Qeq_bool (orient a b c) 0)
  && forallb (fun d => negb (Qpos_bool (in_circle a b c d))) pts.

Definition triples (n : nat) : list simplex :=
  flat_map (fun i =>
    flat_map (fun j =>
      flat_map (fun k =>
        if ((i <? j) && (j <? k))%nat then [(i, j, k)] else [])
      (seq 0 n))
    (seq 0 n))
  (seq 0 n).

Definition reference_Delaunay (pts : list (Q * Q)) : result (list simplex) :=
  match filter (is_delaunay pts) (triples (length pts)) with
  | [] => Raise QhullError
  | simplices => Ok simplices
  end.

End Triangulation.

(** ** test_datasets_dt.py *)

Module DatasetsDt.

Import Coverage.
Local Open Scope Q_scope.

(** The builtin [max] of a list of floats: the first of the largest
    items; an empty list is a [ValueError]. *)
Definition py_max (l : list Q) : result Q :=
  match l with
  | [] => Raise ValueError
  | x :: l' => Ok (fold_left Qmax l' x)
  end.

(** The [while] loop that adds bins by increments of 12.  [fuel] bounds
    the number of times the condition is tested; the result is [None]
    when it runs out. *)
Fixpoint extend_bins (fuel : nat) (dt_list : list Q) (bins : list Z)
  : option (result (list Z)) :=
  match fuel with
  | O => None
  | S fuel' =>
      match item bins (length bins - 1) with
      | Raise e => Some (Raise e)
      | Ok top =>
          match py_max dt_list with
          | Raise e => Some (Raise e)
          | Ok largest =>
              if Qle_bool (inject_Z top) largest then
                match item bins (length bins - 1) with
                | Raise e => Some (Raise e)
                | Ok lb => extend_bins fuel' dt_list (bins ++ [(lb + 12)%Z])
                end
              else Some (Ok bins)
          end
      end
  end.

(** The bins list of the histogram: 0 and 6, then the loop. *)
Definition delta_time_bins (fuel : nat) (dt_list : list Q)
  : option (result (list Z)) :=
  extend_bins fuel dt_list [0; 6]%Z.

End DatasetsDt.

(** ** coverage_frequency_map.py, run as a script *)

Module Script.

Import Numpy Coverage.

(** How the script ends: with its products, with the [NameError] of a
    name that was never bound, or with another exception. *)
Inductive outcome (A : Type) : Type :=
| Done (a : A)
| NameError
| Raised (e : exn).

Arguments Done {A} a.
Arguments NameError {A}.
Arguments Raised {A} e.

Definition lift {A : Type} (r : result A) : outcome A :=
  match r with
  | Ok a => Done a
  | Raise e => Raised e
  end.

Definition and_then {A B : Type} (o : outcome A) (k : A -> outcome B)
  : outcome B :=
  match o with
  | Done a => k a
  | NameError => NameError
  | Raised e => Raised e
  end.

(** [text == True]: an option of the configuration is a text, and a
    text is never equal to the Boolean. *)
Definition equals_True (text : string) : bool := false.

Section Main.

Variables Files Date : Type.
Variable divide_intervals : Files -> list Files * list (Date * Date).
Variable compile_data : Files -> DataFrame.
Variable convert_to_grid : list Q -> list Q -> list Q * list Q.

(** The table of the time series and the grid of the frequency map,
    each present when the script has made it. *)
Record products : Type := Products {
  timeseries_table : option (list (timeseries_row Date));
  frequency_grid : option (list (list (option Q)))
}.

(** The script from the list of raw files on.  [resolution] is the
    value of the resolution option, an integer literal, which
    [get_map_bins] reads with [float] and [coverage_timeseries] with
    [int].  [interval_list] and [date_pairs] are bound only under the
    first test. *)
Definition main (visualise_timeseries visualise_interval : string)
  (resolution : Z) (raw_list : Files) : outcome products :=
  let intervals :=
    if String.eqb visualise_timeseries "True" || equals_True visualise_interval
    then Some (divide_intervals raw_list)
    else None in
  and_then (lift (interval_xy compile_data convert_to_grid raw_list))
    (fun xy =>
  and_then (lift (get_map_bins xy (inject_Z resolution)))
    (fun bins =>
  let xbins := fst bins in
  let ybins := snd bins in
  and_then
    (if String.eqb visualise_timeseries "True" then
       match intervals with
       | None => NameError
       | Some (interval_list, date_pairs) =>
           and_then
             (lift (coverage_timeseries compile_data convert_to_grid
                      xbins ybins interval_list resolution date_pairs))
             (fun table => Done (Some table))
       end
     else Done None)
    (fun table =>
  and_then
    (if String.eqb visualise_interval "True" then
       match intervals with
       | None => NameError
       | Some (interval_list, _) =>
           and_then
             (lift (interval_frequency_histogram2d compile_data
                      convert_to_grid xbins ybins interval_list))
             (fun grid => Done (Some grid))
       end
     else Done None)
    (fun grid => Done (Products table grid))))).

End Main.

End Script.

(** * Properties *)

Import Numpy Coverage Triangulation.

(** ** Statements about [get_map_bins] *)

(** The first edge is at or below every data coordinate and the last
    edge at or above. *)
Definition covers (edges data : list Q) : Prop :=
  exists first final,
    nth_error edges 0 = Some first /\
    nth_error edges (length edges - 1) = Some final /\
    forall v, In v data -> (first <= v /\ v <= final)%Q.

(** [len(edges) - 1] *)
Definition bin_count (edges : list Q) : Z := (Z.of_nat (length edges) - 1)%Z.

(** [floor(basin_extent / (R * 1000))] for the two axes. *)
Definition basin_bins_x (R : Q) : Z :=
  Qfloor (inject_Z (uxextent - lxextent) / (R * 1000)).

Definition basin_bins_y (R : Q) : Z :=
  Qfloor (inject_Z (uyextent - lyextent) / (R * 1000)).

(** The data reach exactly the four basin extents. *)
Definition full_basin_extent (xi yj : list Q) : Prop :=
  exists xmin xmax ymin ymax,
    np_min xi = Ok xmin /\ np_max xi = Ok xmax /\
    np_min yj = Ok ymin /\ np_max yj = Ok ymax /\
    (xmin == inject_Z lxextent /\ xmax == inject_Z uxextent /\
     ymin == inject_Z lyextent /\ ymax == inject_Z uyextent)%Q.

(** What is expected of [get_map_bins] on the points [(xi, yj)] at
    resolution [R]. *)
Definition bins_cover_data (xi yj : list Q) (R : Q) : Prop :=
  exists xbins ybins,
    get_map_bins (xi, yj) R = Ok (xbins, ybins) /\
    covers xbins xi /\ covers ybins yj /\
    (full_basin_extent xi yj ->
     bin_count xbins = basin_bins_x R /\ bin_count ybins = basin_bins_y R).

(** Two of the coordinates differ. *)
Definition spread (a : list Q) : Prop :=
  exists u v, In u a /\ In v a /\ (u < v)%Q.

(** ** Statements about [coverage_histogram2d] *)

(** Edges with which [np.histogram2d] does not raise: at least one
    edge, and no edge above its successor. *)
Definition edges_valid (edges : list Q) : bool :=
  monotone edges && negb (length edges =? 0)%nat.

(** The edges of a grid as the specification has them: strictly
    increasing. *)
Fixpoint increasing (edges : list Q) : bool :=
  match edges with
  | a :: (b :: _) as tl => negb (Qle_bool b a) && increasing tl
  | _ => true
  end.

(** Bin [i] of an axis holds [v]: the bin is half-open, except the last
    one, which includes the last edge. *)
Definition in_bin (edges : list Q) (i : nat) (v : Q) : bool :=
  match nth_error edges i, nth_error edges (S i) with
  | Some lo, Some hi =>
      Qle_bool lo v
      && (negb (Qle_bool hi v)
          || ((S (S i) =? length edges)%nat && Qeq_bool v hi))
  | _, _ => false
  end.

(** The number of points that cell [(i, j)] of the grid holds. *)
Definition points_in_cell (xedges yedges : list Q) (xy : list Q * list Q)
  (i j : nat) : nat :=
  length
    (filter (fun pt => in_bin xedges i (fst pt) && in_bin yedges j (snd pt))
       (combine (fst xy) (snd xy))).

(** Every cell is 0 or 1. *)
Definition binary (a : ndarray) : Prop :=
  Forall (fun c => c = 0%nat \/ c = 1%nat) (flat a).

(** ** Statements about the interval sums *)

Section CoveringCount.

Variable Files : Type.
Variable compile_data : Files -> DataFrame.
Variable convert_to_grid : list Q -> list Q -> list Q * list Q.
Variables xbins_map ybins_map : list Q.

(** The interval is loaded and has a point in cell [(i, j)]. *)
Definition covers_cell (i j : nat) (files : Files) : bool :=
  match interval_xy compile_data convert_to_grid files with
  | Ok xy => negb (points_in_cell xbins_map ybins_map xy i j =? 0)%nat
  | Raise _ => false
  end.

(** The number of intervals that have a point in cell [(i, j)]. *)
Definition covering_count (intervals : list Files) (i j : nat) : nat :=
  length (filter (covers_cell i j) intervals).

End CoveringCount.

(** The vertex indices that a data row stores. *)
Definition row_vertices (r : triangle_row) : simplex :=
  (vertice_idx1 r, vertice_idx2 r, vertice_idx3 r).

(** ** Minimum and maximum of an array *)

Section MinMax.

Local Open Scope Q_scope.

Lemma fold_min_le (a : list Q) (x : Q) :
  fold_left Qmin a x <= x /\ forall y, In y a -> fold_left Qmin a x <= y.
Proof.
  revert x. induction a as [|z a IH]; intros x; simpl.
  - split; [apply Qle_refl | tauto].
  - destruct (IH (Qmin x z)) as [H1 H2]. split.
    + eapply Qle_trans; [exact H1 | apply Q.le_min_l].
    + intros y [<- | Hy].
      * eapply Qle_trans; [exact H1 | apply Q.le_min_r].
      * now apply H2.
Qed.

Lemma fold_max_ge (a : list Q) (x : Q) :
  x <= fold_left Qmax a x /\ forall y, In y a -> y <= fold_left Qmax a x.
Proof.
  revert x. induction a as [|z a IH]; intros x; simpl.
  - split; [apply Qle_refl | tauto].
  - destruct (IH (Qmax x z)) as [H1 H2]. split.
    + eapply Qle_trans; [apply Q.le_max_l | exact H1].
    + intros y [<- | Hy].
      * eapply Qle_trans; [apply Q.le_max_r | exact H1].
      * now apply H2.
Qed.

Lemma np_min_le (a : list Q) (m : Q) :
  np_min a = Ok m -> forall v, In v a -> m <= v.
Proof.
  destruct a as [|x a]; simpl; [discriminate|].
  destruct (fold_min_le a x) as [H1 H2].
  intros [= <-] v [<- | Hv]; [exact H1 | now apply H2].
Qed.

Lemma np_max_ge (a : list Q) (m : Q) :
  np_max a = Ok m -> forall v, In v a -> v <= m.
Proof.
  destruct a as [|x a]; simpl; [discriminate|].
  destruct (fold_max_ge a x) as [H1 H2].
  intros [= <-] v [<- | Hv]; [exact H1 | now apply H2].
Qed.

Lemma np_min_defined (a : list Q) : a <> [] -> exists m, np_min a = Ok m.
Proof. destruct a; [congruence | intros _; eexists; reflexivity]. Qed.

Lemma np_max_defined (a : list Q) : a <> [] -> exists m, np_max a = Ok m.
Proof. destruct a; [congruence | intros _; eexists; reflexivity]. Qed.

Lemma spread_nonempty (a : list Q) : spread a -> a <> [].
Proof. intros (u & v & Hu & _) ->. destruct Hu. Qed.

Lemma spread_min_lt_max (a : list Q) (mn mx : Q) :
  spread a -> np_min a = Ok mn -> np_max a = Ok mx -> mn < mx.
Proof.
  intros (u & v & Hu & Hv & Huv) Hmn Hmx.
  apply Qle_lt_trans with u; [eapply np_min_le; [exact Hmn | exact Hu]|].
  apply Qlt_le_trans with v; [exact Huv | eapply np_max_ge; [exact Hmx | exact Hv]].
Qed.

End MinMax.

(** ** The bin vector of one axis *)

Section Arange.

Local Open Scope Q_scope.

Lemma is_zero_false (q : Q) : ~ q == 0 -> is_zero q = false.
Proof.
  intros H. unfold is_zero. destruct (Qeq_bool q 0) eqn:E; [|reflexivity].
  apply Qeq_bool_eq in E. contradiction.
Qed.

Lemma inject_Z_pos (n : Z) : (0 < n)%Z -> 0 < inject_Z n.
Proof. intros H. change 0 with (inject_Z 0). now rewrite <- Zlt_Qlt. Qed.

Lemma step_pos (mn mx : Q) (n : Z) :
  mn < mx -> (0 < n)%Z -> 0 < (mx - mn) / inject_Z n.
Proof.
  intros Hlt Hn. apply Qlt_shift_div_l; [now apply inject_Z_pos|].
  rewrite Qmult_0_l. unfold Qminus. rewrite <- (Qplus_opp_r mn).
  apply Qplus_lt_l. exact Hlt.
Qed.

(** On an axis whose data are spread and whose bin count is positive,
    the call of [np.arange] gives [n + 1] edges of step
    [(mx - mn) / n]. *)
Lemma arange_axis (mn mx : Q) (n : Z) :
  mn < mx -> (0 < n)%Z ->
  let d := fdiv (Fin (mx - mn)) (Fin (inject_Z n)) in
  arange (Fin mn) (fadd (Fin mx) d) d
  = Ok (arange_values mn ((mx - mn) / inject_Z n) (Z.to_nat (n + 1))).
Proof.
  intros Hlt Hn d. subst d.
  pose proof (inject_Z_pos Hn) as Hn'.
  pose proof (step_pos Hlt Hn) as Hd.
  unfold fdiv at 1 2.
  rewrite (is_zero_false (q := inject_Z n)) by (intros E; rewrite E in Hn'; discriminate).
  unfold arange. cbn [fadd fsub fneg fdiv].
  rewrite is_zero_false by (intros E; rewrite E in Hd; discriminate).
  do 2 f_equal. f_equal.
  rewrite <- (Qceiling_Z (n + 1)). apply Qceiling_comp.
  rewrite inject_Z_plus. field.
  split.
  - intros E. rewrite E in Hn'. discriminate.
  - intros E. apply (Qlt_irrefl mn). setoid_replace mn with mx at 2; [exact Hlt|].
    rewrite <- (Qplus_0_l mn). rewrite <- E. ring.
Qed.

Lemma arange_values_length (s d : Q) (len : nat) :
  length (arange_values s d len) = len.
Proof. unfold arange_values. now rewrite length_map, length_seq. Qed.

Lemma arange_values_nth (s d : Q) (len i : nat) :
  (i < len)%nat ->
  nth_error (arange_values s d len) i = Some (s + inject_Z (Z.of_nat i) * d).
Proof.
  intros Hi. unfold arange_values.
  rewrite nth_error_map, nth_error_seq.
  destruct (Nat.ltb_spec i len); [reflexivity | lia].
Qed.

(** The edges of such an axis: the first is the minimum, the last the
    maximum, and there are [n] bins. *)
Lemma axis_edges (data : list Q) (mn mx : Q) (n : Z) :
  np_min data = Ok mn -> np_max data = Ok mx -> mn < mx -> (0 < n)%Z ->
  let edges := arange_values mn ((mx - mn) / inject_Z n) (Z.to_nat (n + 1)) in
  covers edges data /\ bin_count edges = n.
Proof.
  intros Hmn Hmx Hlt Hn edges. subst edges.
  pose proof (inject_Z_pos Hn) as Hn'.
  split.
  - exists (mn + inject_Z (Z.of_nat 0) * ((mx - mn) / inject_Z n)),
           (mn + inject_Z (Z.of_nat (Z.to_nat (n + 1) - 1)) * ((mx - mn) / inject_Z n)).
    rewrite arange_values_length.
    split; [apply arange_values_nth; lia|].
    split; [apply arange_values_nth; lia|].
    intros v Hv. split.
    + setoid_replace (mn + inject_Z (Z.of_nat 0) * ((mx - mn) / inject_Z n))
        with mn by (simpl; ring).
      eapply np_min_le; [exact Hmn | exact Hv].
    + replace (Z.of_nat (Z.to_nat (n + 1) - 1)) with n by lia.
      setoid_replace (mn + inject_Z n * ((mx - mn) / inject_Z n)) with mx.
      * eapply np_max_ge; [exact Hmx | exact Hv].
      * field. intros E. rewrite E in Hn'. discriminate.
  - unfold bin_count. rewrite arange_values_length. lia.
Qed.

Lemma increasing_map_seq (f : nat -> Q) :
  (forall i, f i < f (S i)) ->
  forall len a, increasing (map f (seq a len)) = true.
Proof.
  intros Hf. induction len as [|len IH]; intros a; [reflexivity|].
  destruct len as [|len]; [reflexivity|].
  change (map f (seq a (S (S len))))
    with (f a :: f (S a) :: map f (seq (S (S a)) len)).
  change (increasing (f a :: f (S a) :: map f (seq (S (S a)) len)))
    with (negb (Qle_bool (f (S a)) (f a))
          && increasing (map f (seq (S a) (S len))))%bool.
  rewrite IH, andb_true_r.
  destruct (Qle_bool (f (S a)) (f a)) eqn:E; [|reflexivity].
  apply Qle_bool_iff in E. exfalso. exact (Qlt_not_le _ _ (Hf a) E).
Qed.

(** With a positive step the edges are strictly increasing. *)
Lemma arange_values_valid (s d : Q) (len : nat) :
  0 < d -> (0 < len)%nat ->
  increasing (arange_values s d len) = true /\
  edges_valid (arange_values s d len) = true.
Proof.
  intros Hd Hlen.
  assert (Hinc : increasing (arange_values s d len) = true).
  { unfold arange_values. apply increasing_map_seq. intros i.
    rewrite Nat2Z.inj_succ. unfold Z.succ. rewrite inject_Z_plus.
    apply Qplus_lt_r. rewrite Qmult_plus_distr_l.
    rewrite <- (Qplus_0_r (inject_Z (Z.of_nat i) * d)) at 1.
    apply Qplus_lt_r. now rewrite Qmult_1_l. }
  split; [exact Hinc|].
  unfold edges_valid. rewrite arange_values_length.
  destruct len; [lia|].
  clear Hlen. revert Hinc. generalize (arange_values s d (S len)).
  intros l Hl. rewrite andb_true_r.
  induction l as [|u [|v l] IH]; try reflexivity.
  change (increasing (u :: v :: l))
    with (negb (Qle_bool v u) && increasing (v :: l))%bool in Hl.
  apply andb_prop in Hl as [Huv Hl].
  change (monotone (u :: v :: l)) with (Qle_bool u v && monotone (v :: l))%bool.
  rewrite (IH Hl), andb_true_r.
  apply Qle_bool_iff, Qlt_le_weak.
  destruct (Qlt_le_dec u v) as [H | H]; [exact H|].
  apply Qle_bool_iff in H. rewrite H in Huv. discriminate.
Qed.

End Arange.

(** ** [get_map_bins] *)

Section GetMapBins.

Local Open Scope Q_scope.

Lemma bins_positive (scale : Z) (R : Q) :
  0 < R -> 1000 * R <= inject_Z scale ->
  (0 < Qfloor (inject_Z scale / (1000 * R)))%Z.
Proof.
  intros HR Hle.
  assert (Hpos : 0 < 1000 * R).
  { rewrite <- (Qmult_0_r 1000). apply Qmult_lt_l; [reflexivity | exact HR]. }
  assert (H1 : 1 <= inject_Z scale / (1000 * R)).
  { apply Qle_shift_div_l; [exact Hpos | now rewrite Qmult_1_l]. }
  apply Qfloor_resp_le in H1. change (Qfloor 1) with 1%Z in H1. lia.
Qed.

Lemma floor_div_defined (scale : Z) (R : Q) :
  ~ R == 0 ->
  floor_div scale (1000 * R) = Ok (Qfloor (inject_Z scale / (1000 * R))).
Proof.
  intros HR. unfold floor_div. rewrite is_zero_false; [reflexivity|].
  intros E. apply HR.
  apply (Qmult_integral 1000 R) in E. destruct E as [E | E]; [discriminate | exact E].
Qed.

(** The two bin vectors, on data that are spread on both axes and at a
    resolution of at most 6000 km. *)
Lemma get_map_bins_value (xi yj : list Q) (R xmin xmax ymin ymax : Q) :
  np_min xi = Ok xmin -> np_max xi = Ok xmax ->
  np_min yj = Ok ymin -> np_max yj = Ok ymax ->
  xmin < xmax -> ymin < ymax -> 0 < R -> R <= 6000 ->
  let nx := Qfloor (inject_Z (uxextent - lxextent) / (1000 * R)) in
  let ny := Qfloor (inject_Z (uyextent - lyextent) / (1000 * R)) in
  (0 < nx)%Z /\ (0 < ny)%Z /\
  get_map_bins (xi, yj) R
  = Ok (arange_values xmin ((xmax - xmin) / inject_Z nx) (Z.to_nat (nx + 1)),
        arange_values ymin ((ymax - ymin) / inject_Z ny) (Z.to_nat (ny + 1))).
Proof.
  intros Hxmin Hxmax Hymin Hymax Hxlt Hylt HR HR6 nx ny.
  assert (HR0 : ~ R == 0) by (intros E; rewrite E in HR; discriminate).
  assert (H1000 : 1000 * R <= 6000000).
  { change 6000000 with (1000 * 6000). apply Qmult_le_l; [reflexivity | exact HR6]. }
  assert (Hnx : (0 < nx)%Z).
  { apply bins_positive; [exact HR|].
    eapply Qle_trans; [exact H1000 | discriminate]. }
  assert (Hny : (0 < ny)%Z).
  { apply bins_positive; [exact HR|]. exact H1000. }
  split; [exact Hnx | split; [exact Hny|]].
  unfold get_map_bins.
  rewrite !floor_div_defined by exact HR0. cbn [bind].
  rewrite Hxmax, Hxmin, Hymax, Hymin. cbn [bind].
  fold nx ny.
  rewrite (@arange_axis xmin xmax nx Hxlt Hnx). cbn [bind].
  rewrite (@arange_axis ymin ymax ny Hylt Hny). cbn [bind].
  reflexivity.
Qed.





(** It fails as well at a resolution above 6000 km, where a bin count
    is zero, even on data that span the whole basin. *)
Lemma get_map_bins_coarse_resolution :
  get_map_bins ([-4400000; 2500000], [-2500000; 3500000]) 7000
  = Raise ValueError.
Proof. vm_compute. reflexivity. Qed.




End GetMapBins.

(** ** Arrays *)

Section Arrays.

Lemma nth_map_seq (A : Type) (f : nat -> A) (n i : nat) (d : A) :
  (i < n)%nat -> nth i (map f (seq 0 n)) d = f i.
Proof.
  intros Hi. rewrite (nth_indep _ d (f 0%nat)) by now rewrite length_map, length_seq.
  rewrite (map_nth f (seq 0 n) 0%nat i). now rewrite seq_nth.
Qed.

Lemma cell_tabulate2 (nx ny : nat) (f : nat -> nat -> nat) (i j : nat) :
  (i < nx)%nat -> (j < ny)%nat -> cell (tabulate2 nx ny f) i j = f i j.
Proof.
  intros Hi Hj. unfold tabulate2, cell.
  rewrite (nth_map_seq (fun i => map (f i) (seq 0 ny)) [] Hi).
  now apply nth_map_seq.
Qed.

Lemma flat_tabulate2_Forall (P : nat -> Prop) (nx ny : nat)
  (f : nat -> nat -> nat) :
  (forall i j, (i < nx)%nat -> (j < ny)%nat -> P (f i j)) ->
  Forall P (flat (tabulate2 nx ny f)).
Proof.
  intros H. unfold tabulate2, flat. apply Forall_concat.
  apply Forall_map. apply Forall_forall. intros i Hi%in_seq.
  apply Forall_map. apply Forall_forall. intros j Hj%in_seq.
  apply H; lia.
Qed.

Lemma map_cells_tabulate2 (g : nat -> nat) (nx ny : nat)
  (f : nat -> nat -> nat) :
  map_cells g (tabulate2 nx ny f) = tabulate2 nx ny (fun i j => g (f i j)).
Proof.
  unfold tabulate2, map_cells. f_equal. rewrite map_map.
  apply map_ext. intros i. now rewrite map_map.
Qed.

Lemma tabulate2_ext (nx ny : nat) (f g : nat -> nat -> nat) :
  (forall i j, (i < nx)%nat -> (j < ny)%nat -> f i j = g i j) ->
  tabulate2 nx ny f = tabulate2 nx ny g.
Proof.
  intros H. unfold tabulate2. f_equal.
  apply map_ext_in. intros i Hi%in_seq.
  apply map_ext_in. intros j Hj%in_seq. apply H; lia.
Qed.

End Arrays.

(** ** Bin numbers *)

Section Bins.

Local Open Scope Q_scope.

Lemma Qle_bool_false (a b : Q) : Qle_bool a b = false -> b < a.
Proof.
  intros H. destruct (Qlt_le_dec b a) as [Hlt | Hle]; [exact Hlt|].
  apply Qle_bool_iff in Hle. congruence.
Qed.

Lemma searchsorted_right_le_length (edges : list Q) (v : Q) :
  (searchsorted_right edges v <= length edges)%nat.
Proof.
  induction edges as [|e edges IH]; simpl; [lia|].
  destruct (Qle_bool e v); lia.
Qed.

Lemma searchsorted_right_below (edges : list Q) (v : Q) (j : nat) (e : Q) :
  (j < searchsorted_right edges v)%nat -> nth_error edges j = Some e -> e <= v.
Proof.
  revert j. induction edges as [|x edges IH]; simpl; intros j Hj He; [lia|].
  destruct (Qle_bool x v) eqn:E; [|lia].
  destruct j as [|j]; simpl in He.
  - injection He as <-. now apply Qle_bool_iff.
  - apply (IH j); [lia | exact He].
Qed.

Lemma searchsorted_right_above (edges : list Q) (v e : Q) :
  nth_error edges (searchsorted_right edges v) = Some e -> v < e.
Proof.
  induction edges as [|x edges IH]; simpl; [discriminate|].
  destruct (Qle_bool x v) eqn:E; simpl.
  - exact IH.
  - intros [= <-]. now apply Qle_bool_false.
Qed.

Lemma monotone_cons (x : Q) (edges : list Q) :
  monotone (x :: edges) = true ->
  monotone edges = true /\ forall b, In b edges -> x <= b.
Proof.
  revert x. induction edges as [|y edges IH]; intros x H.
  - split; [reflexivity | intros b []].
  - change (monotone (x :: y :: edges))
      with (Qle_bool x y && monotone (y :: edges))%bool in H.
    apply andb_prop in H as [Hxy Hm]. apply Qle_bool_iff in Hxy.
    split; [exact Hm|]. intros b [<- | Hb]; [exact Hxy|].
    apply Qle_trans with y; [exact Hxy|]. now apply (IH y Hm).
Qed.

Lemma monotone_nth (edges : list Q) (j j' : nat) (a b : Q) :
  monotone edges = true -> (j <= j')%nat ->
  nth_error edges j = Some a -> nth_error edges j' = Some b -> a <= b.
Proof.
  revert j j'. induction edges as [|x edges IH]; intros j j' Hm Hle Ha Hb.
  - destruct j; discriminate.
  - destruct (monotone_cons _ _ Hm) as [Hm' Hx].
    destruct j as [|j], j' as [|j']; simpl in Ha, Hb.
    + injection Ha as <-. injection Hb as <-. apply Qle_refl.
    + injection Ha as <-. apply Hx. eapply nth_error_In. exact Hb.
    + lia.
    + apply (IH j j'); [exact Hm' | lia | exact Ha | exact Hb].
Qed.

Lemma last_nth_error (edges : list Q) (d : Q) :
  edges <> [] -> nth_error edges (length edges - 1) = Some (last edges d).
Proof.
  induction edges as [|x edges IH]; [congruence | intros _].
  destruct edges as [|y edges]; [reflexivity|].
  change (last (x :: y :: edges) d) with (last (y :: edges) d).
  rewrite <- IH by discriminate. simpl. now rewrite Nat.sub_0_r.
Qed.

(** A sample at the last edge is counted by every edge. *)
Lemma searchsorted_right_at_last (edges : list Q) (v : Q) :
  monotone edges = true -> edges <> [] -> v == last edges 0 ->
  searchsorted_right edges v = length edges.
Proof.
  intros Hm Hne Hv.
  pose proof (searchsorted_right_le_length edges v) as Hle.
  destruct (Nat.eq_dec (searchsorted_right edges v) (length edges)) as [E | E];
    [exact E | exfalso].
  destruct (nth_error edges (searchsorted_right edges v)) as [e|] eqn:He;
    [|apply nth_error_None in He; lia].
  pose proof (searchsorted_right_above _ _ He) as Hlt.
  assert (Hel : e <= last edges 0).
  { apply (@monotone_nth edges (searchsorted_right edges v) (length edges - 1));
      [exact Hm | lia | exact He | exact (last_nth_error 0 Hne)]. }
  rewrite <- Hv in Hel. exact (Qlt_not_le _ _ Hlt Hel).
Qed.

(** The bin number that [np.histogram2d] computes is the number of the
    bin that holds the sample. *)
Lemma bin_number_in_bin (edges : list Q) (v : Q) (i : nat) :
  monotone edges = true -> (S i < length edges)%nat ->
  (bin_number edges v = S i <-> in_bin edges i v = true).
Proof.
  intros Hm Hlen.
  assert (Hne : edges <> []) by (intros ->; simpl in Hlen; lia).
  destruct (nth_error edges i) as [lo|] eqn:Hlo;
    [|apply nth_error_None in Hlo; lia].
  destruct (nth_error edges (S i)) as [hi|] eqn:Hhi;
    [|apply nth_error_None in Hhi; lia].
  pose proof (last_nth_error 0 Hne) as Hlast.
  pose proof (searchsorted_right_le_length edges v) as Hk.
  unfold in_bin, bin_number. rewrite Hlo, Hhi.
  split.
  - intros Hb. destruct (Qeq_bool v (last edges 0)) eqn:E.
    + apply Qeq_bool_eq in E.
      rewrite (searchsorted_right_at_last Hm Hne E) in Hb.
      assert (Hi : (S i = length edges - 1)%nat) by lia.
      rewrite <- Hi in Hlast. rewrite Hhi in Hlast. injection Hlast as Hhl.
      apply andb_true_intro. split.
      * apply Qle_bool_iff. rewrite E, <- Hhl.
        apply (@monotone_nth edges i (S i) lo hi Hm); [lia | exact Hlo | exact Hhi].
      * apply orb_true_intro. right. apply andb_true_intro. split.
        -- apply Nat.eqb_eq. lia.
        -- apply Qeq_eq_bool. now rewrite Hhl.
    + apply andb_true_intro. split.
      * apply Qle_bool_iff.
        apply (@searchsorted_right_below edges v i lo); [lia | exact Hlo].
      * apply orb_true_intro. left.
        rewrite <- Hb in Hhi. apply searchsorted_right_above in Hhi.
        destruct (Qle_bool hi v) eqn:E'; [|reflexivity].
        apply Qle_bool_iff in E'. exfalso. exact (Qlt_not_le _ _ Hhi E').
  - intros Hb. apply andb_prop in Hb as [Hlov Hb]. apply Qle_bool_iff in Hlov.
    apply orb_prop in Hb as [Hb | Hb].
    + assert (Hvhi : v < hi).
      { apply Qle_bool_false. now destruct (Qle_bool hi v). }
      assert (Hhl : hi <= last edges 0).
      { apply (@monotone_nth edges (S i) (length edges - 1) hi (last edges 0) Hm);
          [lia | exact Hhi | exact Hlast]. }
      assert (E : Qeq_bool v (last edges 0) = false).
      { destruct (Qeq_bool v (last edges 0)) eqn:E; [|reflexivity].
        apply Qeq_bool_eq in E. rewrite <- E in Hhl. exfalso.
        exact (Qlt_not_le _ _ Hvhi Hhl). }
      rewrite E.
      destruct (lt_eq_lt_dec (searchsorted_right edges v) (S i)) as [[Hlt | Heq] | Hgt].
      * exfalso.
        destruct (nth_error edges (searchsorted_right edges v)) as [e|] eqn:He;
          [|apply nth_error_None in He; lia].
        pose proof (searchsorted_right_above _ _ He) as Hve.
        assert (Hel : e <= lo).
        { apply (@monotone_nth edges (searchsorted_right edges v) i);
            [exact Hm | lia | exact He | exact Hlo]. }
        apply (Qlt_not_le _ _ Hve). now apply Qle_trans with lo.
      * exact Heq.
      * exfalso.
        pose proof (@searchsorted_right_below edges v (S i) hi Hgt Hhi) as Hle.
        exact (Qlt_not_le _ _ Hvhi Hle).
    + apply andb_prop in Hb as [Hi Hv]. apply Nat.eqb_eq in Hi.
      apply Qeq_bool_eq in Hv.
      assert (Hi' : (S i = length edges - 1)%nat) by lia.
      rewrite <- Hi' in Hlast. rewrite Hhi in Hlast. injection Hlast as Hhl.
      assert (E : v == last edges 0) by now rewrite <- Hhl.
      rewrite (Qeq_eq_bool _ _ E).
      rewrite (searchsorted_right_at_last Hm Hne E). lia.
Qed.

End Bins.

(** ** [coverage_histogram2d] *)

Section CoverageHistogram.

Local Open Scope nat_scope.

Lemma edges_valid_inv (edges : list Q) :
  edges_valid edges = true -> monotone edges = true /\ edges <> [].
Proof.
  unfold edges_valid. intros [Hm Hl]%andb_prop. split; [exact Hm|].
  intros ->. discriminate.
Qed.

Lemma increasing_monotone (edges : list Q) :
  increasing edges = true -> monotone edges = true.
Proof.
  induction edges as [|a [|b edges] IH]; try reflexivity.
  change (increasing (a :: b :: edges))
    with (negb (Qle_bool b a) && increasing (b :: edges))%bool.
  change (monotone (a :: b :: edges))
    with (Qle_bool a b && monotone (b :: edges))%bool.
  intros [Hab Hi]%andb_prop. rewrite (IH Hi), andb_true_r.
  apply Qle_bool_iff, Qlt_le_weak, Qle_bool_false.
  now destruct (Qle_bool b a).
Qed.

(** Strictly increasing edges, at least one of them, are valid. *)
Lemma increasing_edges_valid (edges : list Q) :
  increasing edges = true -> edges <> [] -> edges_valid edges = true.
Proof.
  intros Hi Hne. unfold edges_valid. rewrite (increasing_monotone _ Hi).
  destruct edges; [congruence | reflexivity].
Qed.

Lemma histogram2d_defined (x y xedges yedges : list Q) :
  length x = length y ->
  edges_valid xedges = true -> edges_valid yedges = true ->
  histogram2d x y (xedges, yedges)
  = Ok (tabulate2 (length xedges - 1) (length yedges - 1)
          (cell_count (combine (map (bin_number xedges) x)
                               (map (bin_number yedges) y)))).
Proof.
  intros Hlen [Hmx Hnx]%edges_valid_inv [Hmy Hny]%edges_valid_inv.
  unfold histogram2d. rewrite Hlen, Nat.eqb_refl, Hmx, Hmy. simpl.
  destruct xedges; [congruence|]. destruct yedges; [congruence|]. reflexivity.
Qed.

Lemma combine_map_map (A B C D : Type) (f : A -> C) (g : B -> D)
  (a : list A) (b : list B) :
  combine (map f a) (map g b)
  = map (fun pt => (f (fst pt), g (snd pt))) (combine a b).
Proof.
  revert b. induction a as [|u a IH]; intros [|v b]; simpl; try reflexivity.
  now rewrite IH.
Qed.

Lemma length_filter_map (A B : Type) (P : B -> bool) (h : A -> B) (l : list A) :
  length (filter P (map h l)) = length (filter (fun u => P (h u)) l).
Proof.
  induction l as [|u l IH]; simpl; [reflexivity|].
  destruct (P (h u)); simpl; now rewrite IH.
Qed.

Lemma bool_eq_iff (a b : bool) : (a = true <-> b = true) -> a = b.
Proof.
  destruct a, b; intros [H1 H2]; try reflexivity.
  - symmetry. now apply H1.
  - now apply H2.
Qed.

(** The count that [np.histogram2d] gives a proper cell is the number of
    points that the cell holds. *)
Lemma cell_count_points (x y xedges yedges : list Q) (i j : nat) :
  monotone xedges = true -> monotone yedges = true ->
  S i < length xedges -> S j < length yedges ->
  cell_count (combine (map (bin_number xedges) x) (map (bin_number yedges) y))
    i j
  = points_in_cell xedges yedges (x, y) i j.
Proof.
  intros Hmx Hmy Hi Hj. unfold cell_count, points_in_cell.
  rewrite combine_map_map, length_filter_map. cbn [fst snd].
  f_equal. apply filter_ext. intros [u v]. cbn [fst snd]. unfold same_bin.
  cbn [fst snd]. f_equal.
  - apply bool_eq_iff. rewrite Nat.eqb_eq.
    rewrite <- (@bin_number_in_bin xedges u i Hmx Hi). split; congruence.
  - apply bool_eq_iff. rewrite Nat.eqb_eq.
    rewrite <- (@bin_number_in_bin yedges v j Hmy Hj). split; congruence.
Qed.

(** The grid that [coverage_histogram2d] returns, cell by cell. *)
Lemma coverage_histogram2d_value (xi yj xbins_map ybins_map : list Q) :
  length xi = length yj ->
  edges_valid xbins_map = true -> edges_valid ybins_map = true ->
  coverage_histogram2d (xi, yj) xbins_map ybins_map
  = Ok (tabulate2 (length xbins_map - 1) (length ybins_map - 1)
          (fun i j =>
             if points_in_cell xbins_map ybins_map (xi, yj) i j =? 0
             then 0 else 1)).
Proof.
  intros Hlen Hx Hy.
  destruct (edges_valid_inv _ Hx) as [Hmx _].
  destruct (edges_valid_inv _ Hy) as [Hmy _].
  unfold coverage_histogram2d.
  rewrite (@histogram2d_defined xi yj xbins_map ybins_map Hlen Hx Hy). cbn [bind].
  unfold assign_where. rewrite map_cells_tabulate2. f_equal.
  apply tabulate2_ext. intros i j Hi Hj.
  rewrite (@cell_count_points xi yj xbins_map ybins_map i j Hmx Hmy) by lia.
  destruct (points_in_cell xbins_map ybins_map (xi, yj) i j) as [|[|n]];
    reflexivity.
Qed.

(** C5: on points with both coordinates and valid edges,
    [coverage_histogram2d] returns a grid of the shape the edges give,
    whose cells are all 0 or 1: 1 where the cell holds at least one
    point and 0 elsewhere. *)
Theorem coverage_histogram2d_binary (xi yj xbins_map ybins_map : list Q) :
  length xi = length yj ->
  edges_valid xbins_map = true -> edges_valid ybins_map = true ->
  exists rows,
    coverage_histogram2d (xi, yj) xbins_map ybins_map
    = Ok (Arr2 (length xbins_map - 1) (length ybins_map - 1) rows) /\
    binary (Arr2 (length xbins_map - 1) (length ybins_map - 1) rows) /\
    forall i j, i < length xbins_map - 1 -> j < length ybins_map - 1 ->
      nth j (nth i rows []) 0
      = if points_in_cell xbins_map ybins_map (xi, yj) i j =? 0 then 0 else 1.
Proof.
  intros Hlen Hx Hy.
  eexists. split;
    [exact (@coverage_histogram2d_value xi yj xbins_map ybins_map Hlen Hx Hy)
    | split].
  - apply flat_tabulate2_Forall. intros i j _ _.
    destruct (_ =? 0); auto.
  - intros i j Hi Hj.
    exact (@cell_tabulate2 _ _
             (fun i j =>
                if points_in_cell xbins_map ybins_map (xi, yj) i j =? 0
                then 0 else 1) i j Hi Hj).
Qed.

Lemma coverage_histogram2d_binary_witness :
  exists rows,
    coverage_histogram2d ([0; 1; 1; 2], [0; 1; 1; 2])%Q [0; 1; 2; 3]%Q [0; 1; 2]%Q
    = Ok (Arr2 3 2 rows) /\
    binary (Arr2 3 2 rows) /\
    forall i j, i < 3 -> j < 2 ->
      nth j (nth i rows []) 0
      = if points_in_cell [0; 1; 2; 3]%Q [0; 1; 2]%Q
             ([0; 1; 1; 2], [0; 1; 1; 2])%Q i j =? 0
        then 0 else 1.
Proof.
  apply (@coverage_histogram2d_binary
           [0; 1; 1; 2]%Q [0; 1; 1; 2]%Q [0; 1; 2; 3]%Q [0; 1; 2]%Q);
    reflexivity.
Defined.

(** C6: on the empty point set and valid edges, [coverage_histogram2d]
    returns the all-zero grid of the shape the edges give. *)
Theorem coverage_histogram2d_empty (xbins_map ybins_map : list Q) :
  edges_valid xbins_map = true -> edges_valid ybins_map = true ->
  coverage_histogram2d ([], []) xbins_map ybins_map
  = Ok (zeros (length xbins_map - 1, length ybins_map - 1)).
Proof.
  intros Hx Hy. unfold coverage_histogram2d.
  rewrite (@histogram2d_defined [] [] _ _ eq_refl Hx Hy). cbn [bind].
  unfold assign_where. now rewrite map_cells_tabulate2.
Qed.

Lemma coverage_histogram2d_empty_witness :
  coverage_histogram2d ([], []) [0; 1; 2; 3]%Q [0; 1; 2]%Q
  = Ok (zeros (3, 2)).
Proof.
  apply (@coverage_histogram2d_empty [0; 1; 2; 3]%Q [0; 1; 2]%Q); reflexivity.
Defined.

End CoverageHistogram.

(** ** The loading of an interval *)

Section Loading.

Variable Files : Type.
Variable compile_data : Files -> DataFrame.
Variable convert_to_grid : list Q -> list Q -> list Q * list Q.

Lemma column_error (df : DataFrame) (name : string) (e : exn) :
  column df name = Raise e -> e = KeyError.
Proof.
  induction df as [|[n values] df IH]; simpl.
  - now intros [= <-].
  - destruct (String.eqb n name); [discriminate | exact IH].
Qed.

(** The only way of not loading an interval is the [KeyError] of a
    missing column. *)
Lemma interval_xy_error (files : Files) (e : exn) :
  interval_xy compile_data convert_to_grid files = Raise e -> e = KeyError.
Proof.
  unfold interval_xy.
  destruct (column (compile_data files) "lon") as [lon|e1] eqn:E1; cbn [bind].
  - destruct (column (compile_data files) "lat") as [lat|e2] eqn:E2; cbn [bind].
    + discriminate.
    + intros [= <-]. exact (column_error _ _ E2).
  - intros [= <-]. exact (column_error _ _ E1).
Qed.

Lemma loaded_false (files : Files) :
  loaded compile_data convert_to_grid files = false <->
  interval_xy compile_data convert_to_grid files = Raise KeyError.
Proof.
  unfold loaded.
  destruct (interval_xy compile_data convert_to_grid files) as [xy|e] eqn:E.
  - split; discriminate.
  - rewrite (interval_xy_error _ E). tauto.
Qed.

Lemma filter_length_lt (A : Type) (f : A -> bool) (l : list A) (x : A) :
  In x l -> f x = false -> (length (filter f l) < length l)%nat.
Proof.
  induction l as [|y l IH]; simpl; [tauto|].
  pose proof (filter_length_le f l) as Hle.
  intros [-> | Hx] Hf.
  - rewrite Hf. lia.
  - specialize (IH Hx Hf). destruct (f y); simpl; lia.
Qed.

End Loading.

(** ** [coverage_timeseries] *)

Section TimeSeries.

Variables Files Date : Type.
Variable compile_data : Files -> DataFrame.
Variable convert_to_grid : list Q -> list Q -> list Q * list Q.
Variables xbins_map ybins_map : list Q.

Local Notation "'xy_of'" := (interval_xy compile_data convert_to_grid).
Local Notation "'is_loaded'" := (loaded compile_data convert_to_grid).
Local Notation "'row_of'" :=
  (@interval_row Files Date compile_data convert_to_grid xbins_map ybins_map).
Local Notation "'rows'" :=
  (@rows_in_order Files Date compile_data convert_to_grid xbins_map ybins_map).
Local Notation "'loop'" :=
  (@timeseries_loop Files Date compile_data convert_to_grid xbins_map ybins_map).

Hypothesis xbins_valid : edges_valid xbins_map = true.
Hypothesis ybins_valid : edges_valid ybins_map = true.

Local Notation "'paired'" := (paired compile_data convert_to_grid).

Lemma interval_row_loaded (area : Q) (files : Files) (dates : Date * Date)
  (xi yj : list Q) :
  xy_of files = Ok (xi, yj) -> length xi = length yj ->
  exists histogram,
    coverage_histogram2d (xi, yj) xbins_map ybins_map = Ok histogram /\
    row_of area (files, dates)
    = Some (covered_percentage area histogram, fst dates, snd dates).
Proof.
  intros E Hlen.
  pose proof (@coverage_histogram2d_value xi yj xbins_map ybins_map
                Hlen xbins_valid ybins_valid) as Hh.
  eexists. split; [exact Hh|].
  unfold interval_row. cbn [fst snd]. rewrite E, Hh. reflexivity.
Qed.

Lemma interval_row_skipped (area : Q) (files : Files) (dates : Date * Date) :
  xy_of files = Raise KeyError -> row_of area (files, dates) = None.
Proof. intros E. unfold interval_row. cbn [fst]. now rewrite E. Qed.

(** The loop appends the rows of the remaining intervals, in order. *)
Lemma timeseries_loop_rows (area : Q) (rest : list Files) :
  forall (dates_rest done : list (Date * Date)) (i : nat)
         (df : list (timeseries_row Date)),
    length done = i -> length dates_rest = length rest -> paired rest ->
    loop area (done ++ dates_rest) i rest df
    = Ok (df ++ rows area (combine rest dates_rest)).
Proof.
  induction rest as [|files rest IH]; intros dates_rest done i df Hi Hlen Hp.
  - simpl. now rewrite app_nil_r.
  - destruct dates_rest as [|dates dates_rest]; [discriminate|].
    assert (Hp' : paired rest).
    { intros f xi yj Hf. apply Hp. now right. }
    assert (Hnext : loop area (done ++ dates :: dates_rest) (S i) rest
                    = loop area ((done ++ [dates]) ++ dates_rest) (S i) rest).
    { now rewrite <- app_assoc. }
    cbn [timeseries_loop combine rows_in_order flat_map].
    destruct (xy_of files) as [[xi yj]|e] eqn:E.
    + destruct (@interval_row_loaded area files dates xi yj E
                  (Hp files xi yj (or_introl eq_refl) E)) as (h & Hh & Hrow).
      rewrite Hh, Hrow. cbn [bind].
      unfold item. rewrite nth_error_app2 by lia.
      replace (i - length done)%nat with 0%nat by lia. cbn [nth_error bind].
      rewrite Hnext, IH.
      * now rewrite <- app_assoc.
      * rewrite length_app. simpl. lia.
      * simpl in Hlen. lia.
      * exact Hp'.
    + pose proof (interval_xy_error _ _ _ E) as ->.
      rewrite (@interval_row_skipped area files dates E).
      rewrite Hnext, IH.
      * reflexivity.
      * rewrite length_app. simpl. lia.
      * simpl in Hlen. lia.
      * exact Hp'.
Qed.

Lemma rows_length (area : Q) (intervals : list Files) :
  forall date_pairs, length date_pairs = length intervals -> paired intervals ->
  length (rows area (combine intervals date_pairs))
  = accumulated compile_data convert_to_grid intervals.
Proof.
  unfold accumulated.
  induction intervals as [|files intervals IH]; intros [|dates date_pairs] Hlen Hp;
    try discriminate; [reflexivity|].
  assert (Hp' : paired intervals).
  { intros f xi yj Hf. apply Hp. now right. }
  cbn [combine rows_in_order flat_map filter]. rewrite length_app.
  assert (Htail : length (rows area (combine intervals date_pairs))
                  = length (filter is_loaded intervals)).
  { apply IH; [simpl in Hlen; lia | exact Hp']. }
  unfold rows_in_order in Htail. rewrite Htail.
  destruct (xy_of files) as [[xi yj]|e] eqn:E.
  - destruct (@interval_row_loaded area files dates xi yj E
                (Hp files xi yj (or_introl eq_refl) E)) as (h & _ & ->).
    assert (Hl : is_loaded files = true) by (unfold loaded; now rewrite E).
    rewrite Hl. reflexivity.
  - pose proof (interval_xy_error _ _ _ E) as ->.
    rewrite (@interval_row_skipped area files dates E).
    assert (Hl : is_loaded files = false) by (unfold loaded; now rewrite E).
    rewrite Hl. reflexivity.
Qed.


End TimeSeries.

Lemma points_table_paired (intervals : list (list (Q * Q))) :
  paired points_table plain_grid intervals.
Proof.
  intros [|pt points] xi yj _; unfold interval_xy, plain_grid; simpl.
  - discriminate.
  - intros [= <- <-]. simpl. now rewrite !length_map.
Qed.


(** ** Bounds on the cells of an array *)

Section CellBounds.

Local Open Scope nat_scope.

Lemma nth_le (n : nat) (v : list nat) (j : nat) :
  Forall (fun c => c <= n) v -> nth j v 0 <= n.
Proof.
  intros H. destruct (nth_in_or_default j v 0) as [Hin | ->]; [|lia].
  rewrite Forall_forall in H. now apply H.
Qed.

Lemma cell_le (n : nat) (a : ndarray) (i j : nat) :
  all_le n a -> cell a i j <= n.
Proof.
  unfold all_le. destruct a as [v | nx ny rows]; simpl; intros H.
  - now apply nth_le.
  - apply nth_le.
    destruct (nth_in_or_default i rows []) as [Hin | ->]; [|constructor].
    rewrite Forall_forall in H |- *. intros c Hc. apply H.
    apply in_concat. eauto.
Qed.

Lemma all_le_tabulate2 (n nx ny : nat) (f : nat -> nat -> nat) :
  (forall i j, f i j <= n) -> all_le n (tabulate2 nx ny f).
Proof. intros H. apply flat_tabulate2_Forall. intros i j _ _. apply H. Qed.

(** After [a[a > 0] = 1] every cell is 0 or 1. *)
Lemma assign_positive_le (a : ndarray) :
  all_le 1 (assign_where (fun c => 0 <? c) 1 a).
Proof.
  unfold all_le, assign_where. destruct a as [v | nx ny rows]; simpl.
  - apply Forall_map, Forall_forall. intros [|c] _; simpl; lia.
  - apply Forall_concat, Forall_map, Forall_forall. intros row _.
    apply Forall_map, Forall_forall. intros [|c] _; simpl; lia.
Qed.

Lemma resize_le (n : nat) (a : ndarray) (shape : nat * nat) :
  all_le n a -> all_le n (resize a shape).
Proof.
  intros H. destruct shape as [nx ny]. unfold resize.
  apply all_le_tabulate2. intros i j. now apply nth_le.
Qed.

Lemma np_add_le (n m : nat) (a b c : ndarray) :
  all_le n a -> all_le m b -> np_add a b = Ok c -> all_le (n + m) c.
Proof.
  intros Ha Hb. unfold np_add.
  destruct (shape2 a) as [a1 a2], (shape2 b) as [b1 b2].
  destruct (broadcast_dim a1 b1) as [n1|]; [|discriminate].
  destruct (broadcast_dim a2 b2) as [n2|]; [|discriminate].
  assert (Hsum : forall i j,
             cell a (broadcast_index a1 i) (broadcast_index a2 j)
             + cell b (broadcast_index b1 i) (broadcast_index b2 j) <= n + m).
  { intros i j. apply Nat.add_le_mono; now apply cell_le. }
  destruct a as [va | ax ay ra], b as [vb | bx by_ rb]; intros [= <-];
    try (apply all_le_tabulate2; exact Hsum).
  unfold all_le. simpl flat. apply Forall_map, Forall_forall.
  intros j _. exact (Hsum 0 j).
Qed.

End CellBounds.

(** ** [interval_frequency_histogram2d] *)

Section Frequency.

Variable Files : Type.
Variable compile_data : Files -> DataFrame.
Variable convert_to_grid : list Q -> list Q -> list Q * list Q.
Variables xbins_map ybins_map : list Q.

Local Notation "'xy_of'" := (interval_xy compile_data convert_to_grid).
Local Notation "'is_loaded'" := (loaded compile_data convert_to_grid).
Local Notation "'count'" := (accumulated compile_data convert_to_grid).
Local Notation "'loop'" :=
  (frequency_loop compile_data convert_to_grid xbins_map ybins_map).
Local Notation "'total'" :=
  (interval_frequency_sum compile_data convert_to_grid xbins_map ybins_map).

Local Open Scope nat_scope.

Lemma count_cons (files : Files) (rest : list Files) :
  count (files :: rest) = (if is_loaded files then 1 else 0) + count rest.
Proof. unfold accumulated. simpl. now destruct (is_loaded files). Qed.

(** One more interval adds at most one to every cell. *)
Lemma frequency_loop_bound (rest : list Files) :
  forall (i n : nat) (H H' : ndarray),
    all_le n H -> loop i rest H = Ok H' -> all_le (n + count rest) H'.
Proof.
  induction rest as [|files rest IH]; intros i n H H' Hn Hrun.
  - simpl in Hrun. injection Hrun as <-.
    unfold accumulated. simpl. now rewrite Nat.add_0_r.
  - rewrite count_cons. cbn [frequency_loop] in Hrun. unfold loaded.
    destruct (xy_of files) as [xy|e] eqn:E.
    + destruct (coverage_histogram2d xy xbins_map ybins_map) as [h|e]
        eqn:Eh; cbn [bind] in Hrun; [|discriminate].
      set (h1 := assign_where (fun c => 0 <? c) 1 h) in Hrun.
      set (H1 := if i =? 0 then resize H (shape2 h1) else H) in Hrun.
      destruct (np_add H1 h1) as [H2|e] eqn:Eadd; cbn [bind] in Hrun;
        [|discriminate].
      assert (HH1 : all_le n H1).
      { unfold H1. destruct (i =? 0); [now apply resize_le | exact Hn]. }
      pose proof (np_add_le HH1 (assign_positive_le h) Eadd) as HH2.
      rewrite Nat.add_assoc. exact (IH (S i) (n + 1) H2 H' HH2 Hrun).
    + pose proof (interval_xy_error _ _ _ E) as ->.
      simpl. exact (IH (S i) n H H' Hn Hrun).
Qed.

(** The loop on a list of intervals is the loop on its first part,
    continued on the rest. *)
Lemma frequency_loop_app (done rest : list Files) :
  forall (i : nat) (H : ndarray),
    loop i (done ++ rest) H
    = (H' <- loop i done H ;; loop (i + length done) rest H').
Proof.
  induction done as [|files done IH]; intros i H.
  - simpl. now rewrite Nat.add_0_r.
  - cbn [app frequency_loop length].
    replace (i + S (length done)) with (S i + length done) by lia.
    destruct (xy_of files) as [xy|[]]; try reflexivity; [|apply IH].
    destruct (coverage_histogram2d xy xbins_map ybins_map) as [h|e];
      cbn [bind]; [|reflexivity].
    destruct (np_add _ _) as [H2|e]; cbn [bind]; [apply IH | reflexivity].
Qed.

(** C4: when the loop has gone through the intervals [done] and holds
    the sum [H], every cell of [H] is at most the number of intervals
    accumulated so far; [H] is the sum from which a run on more
    intervals goes on, and the sum that is finalized when there are no
    more. *)
Theorem frequency_sum_bounded (done rest : list Files) (H : ndarray) :
  total done = Ok H ->
  all_le (count done) H /\
  count done <= length done /\
  total (done ++ rest) = loop (length done) rest H.
Proof.
  intros Hrun. split; [|split].
  - apply (@frequency_loop_bound done 0 0 (Arr1 []) H); [constructor | exact Hrun].
  - unfold accumulated. apply filter_length_le.
  - unfold interval_frequency_sum in *.
    rewrite frequency_loop_app, Hrun. reflexivity.
Qed.

(** What is plotted is a percentage: at most 100. *)
Lemma frequency_percent_bound (n c : nat) (p : Q) :
  c <= n -> frequency_percent n c = Some p -> (0 < p /\ p <= 100)%Q.
Proof.
  unfold frequency_percent. destruct (Nat.eqb_spec c 0) as [|Hc]; [discriminate|].
  intros Hle [= <-].
  assert (Hn : (0 < inject_Z (Z.of_nat n))%Q).
  { change 0%Q with (inject_Z 0). rewrite <- Zlt_Qlt. lia. }
  split.
  - apply Qlt_shift_div_l; [exact Hn|]. rewrite Qmult_0_l.
    change 0%Q with (inject_Z 0 * 100)%Q. apply Qmult_lt_compat_r; [reflexivity|].
    rewrite <- Zlt_Qlt. lia.
  - apply Qle_shift_div_r; [exact Hn|]. rewrite (Qmult_comm 100).
    apply Qmult_le_compat_r; [|discriminate]. rewrite <- Zle_Qle. lia.
Qed.

(** X19: at finalization every value that is plotted is a percentage
    between 0 (excluded) and 100. *)
Lemma interval_frequency_percentages (interval_list : list Files)
  (grid : list (list (option Q))) :
  interval_frequency_histogram2d compile_data convert_to_grid
    xbins_map ybins_map interval_list = Ok grid ->
  forall row p, In row grid -> In (Some p) row -> (0 < p /\ p <= 100)%Q.
Proof.
  unfold interval_frequency_histogram2d.
  destruct (total interval_list) as [H|e] eqn:Hrun; cbn [bind]; [|discriminate].
  destruct (shape2 H) as [n1 n2]. intros [= <-] row p Hrow Hp.
  apply in_map_iff in Hrow as (j & <- & _).
  apply in_map_iff in Hp as (i & Hp & _).
  apply (@frequency_percent_bound (length interval_list) (cell H i j) p);
    [|exact Hp].
  apply Nat.le_trans with (count interval_list).
  - apply cell_le.
    apply (@frequency_loop_bound interval_list 0 0 (Arr1 []) H);
      [constructor | exact Hrun].
  - unfold accumulated. apply filter_length_le.
Qed.

End Frequency.

(** ** The shape of the sum *)

Section FrequencyShape.

Variable Files : Type.
Variable compile_data : Files -> DataFrame.
Variable convert_to_grid : list Q -> list Q -> list Q * list Q.
Variables xbins_map ybins_map : list Q.

Hypothesis xbins_valid : edges_valid xbins_map = true.
Hypothesis ybins_valid : edges_valid ybins_map = true.

Local Notation "'xy_of'" := (interval_xy compile_data convert_to_grid).
Local Notation "'is_loaded'" := (loaded compile_data convert_to_grid).
Local Notation "'paired'" := (paired compile_data convert_to_grid).
Local Notation "'loop'" :=
  (frequency_loop compile_data convert_to_grid xbins_map ybins_map).
Local Notation "'total'" :=
  (interval_frequency_sum compile_data convert_to_grid xbins_map ybins_map).
Local Notation "'nx'" := (length xbins_map - 1)%nat.
Local Notation "'ny'" := (length ybins_map - 1)%nat.

Local Open Scope nat_scope.

Lemma broadcast_dim_same (n : nat) : broadcast_dim n n = Some n.
Proof. unfold broadcast_dim. now rewrite Nat.eqb_refl. Qed.

(** The histogram of a loaded interval, clamped, has the shape of the
    grid. *)
Lemma interval_histogram_shape (files : Files) (xi yj : list Q) :
  xy_of files = Ok (xi, yj) -> length xi = length yj ->
  exists cells,
    coverage_histogram2d (xi, yj) xbins_map ybins_map = Ok (Arr2 nx ny cells).
Proof.
  intros _ Hlen.
  pose proof (@coverage_histogram2d_value xi yj xbins_map ybins_map
                Hlen xbins_valid ybins_valid) as Hh.
  eexists. exact Hh.
Qed.

(** Once the sum has the shape of the grid, it keeps it. *)
Lemma frequency_loop_shaped (rest : list Files) :
  forall (i : nat) (cells : list (list nat)),
    paired rest -> i <> 0 ->
    exists cells', loop i rest (Arr2 nx ny cells) = Ok (Arr2 nx ny cells').
Proof.
  induction rest as [|files rest IH]; intros i cells Hp Hi.
  - now exists cells.
  - assert (Hp' : paired rest).
    { intros f xi yj Hf. apply Hp. now right. }
    cbn [frequency_loop].
    destruct (xy_of files) as [[xi yj]|e] eqn:E.
    + destruct (@interval_histogram_shape files xi yj E
                  (Hp files xi yj (or_introl eq_refl) E)) as (h & ->).
      cbn [bind]. destruct (Nat.eqb_spec i 0) as [|_]; [contradiction|].
      unfold np_add, assign_where. cbn [map_cells shape2].
      rewrite !broadcast_dim_same. cbn [bind]. apply IH; [exact Hp' | lia].
    + pose proof (interval_xy_error _ _ _ E) as ->.
      apply IH; [exact Hp' | lia].
Qed.

(** When the first interval of the list is loaded, the sum is taken on
    the grid for every list of intervals. *)
Lemma frequency_first_loaded (first : Files) (rest : list Files) :
  is_loaded first = true -> paired (first :: rest) ->
  exists cells, total (first :: rest) = Ok (Arr2 nx ny cells).
Proof.
  intros Hl Hp. unfold loaded in Hl. unfold interval_frequency_sum.
  cbn [frequency_loop].
  destruct (xy_of first) as [[xi yj]|e] eqn:E; [|discriminate].
  destruct (@interval_histogram_shape first xi yj E
              (Hp first xi yj (or_introl eq_refl) E)) as (h & ->).
  cbn [bind Nat.eqb]. unfold np_add, assign_where, resize.
  cbn [map_cells shape2 tabulate2].
  rewrite !broadcast_dim_same. cbn [bind].
  apply frequency_loop_shaped; [|lia].
  intros f xi' yj' Hf. apply Hp. now right.
Qed.

(** While no interval has been loaded, from the second interval on, the
    sum is still the empty 1-d array, and the first loaded interval
    cannot be added to it when the grid has two or more bins along y. *)
Lemma frequency_loop_unshaped (rest : list Files) :
  forall i : nat,
    i <> 0 -> 2 <= ny -> paired rest ->
    (exists files, In files rest /\ is_loaded files = true) ->
    loop i rest (Arr1 []) = Raise ValueError.
Proof.
  induction rest as [|files rest IH]; intros i Hi Hny Hp (f & Hin & Hl).
  - destruct Hin.
  - cbn [frequency_loop].
    destruct (xy_of files) as [[xi yj]|e] eqn:E.
    + destruct (@interval_histogram_shape files xi yj E
                  (Hp files xi yj (or_introl eq_refl) E)) as (h & ->).
      cbn [bind]. destruct (Nat.eqb_spec i 0) as [|_]; [contradiction|].
      unfold np_add, assign_where. cbn [map_cells shape2 length].
      assert (Hb : broadcast_dim 0 ny = None).
      { unfold broadcast_dim.
        destruct (Nat.eqb_spec 0 ny); [lia|]. cbn [Nat.eqb].
        destruct (Nat.eqb_spec ny 1); [lia | reflexivity]. }
      rewrite Hb. now destruct (broadcast_dim 1 nx).
    + pose proof (interval_xy_error _ _ _ E) as ->.
      apply IH; [lia | exact Hny | |].
      * intros g xi yj Hg. apply Hp. now right.
      * destruct Hin as [<- | Hin].
        -- unfold loaded in Hl. rewrite E in Hl. discriminate.
        -- now exists f.
Qed.

(** X18: the shape is fitted at index 0 only: when the first interval
    is skipped, a later one is loaded and the grid has two or more bins
    along y, the sum fails with [ValueError]. *)
Lemma frequency_first_skipped (first : Files) (rest : list Files) :
  is_loaded first = false -> 2 <= ny -> paired rest ->
  (exists files, In files rest /\ is_loaded files = true) ->
  total (first :: rest) = Raise ValueError.
Proof.
  intros Hl Hny Hp Hex. apply loaded_false in Hl.
  unfold interval_frequency_sum. cbn [frequency_loop]. rewrite Hl.
  now apply frequency_loop_unshaped.
Qed.

End FrequencyShape.

Lemma frequency_sum_bounded_witness :
  exists H,
    interval_frequency_sum points_table plain_grid [0; 1; 2]%Q [0; 1; 2]%Q
      [[(1 # 2, 1 # 2)]; []; [(1 # 2, 1 # 2); (3 # 2, 1 # 2)]]%Q = Ok H /\
    all_le 2 H.
Proof.
  eexists. split; [vm_compute; reflexivity|].
  apply (@frequency_sum_bounded (list (Q * Q)) points_table plain_grid
           [0; 1; 2]%Q [0; 1; 2]%Q
           [[(1 # 2, 1 # 2)]; []; [(1 # 2, 1 # 2); (3 # 2, 1 # 2)]]%Q []).
  vm_compute. reflexivity.
Defined.

(** C2 fails on this run: the first interval has no file, the second has
    a point, and the grid has two bins along each axis; the sum is
    still the empty array when the second histogram is added. *)
Theorem frequency_first_skipped_run :
  interval_xy points_table plain_grid [] = Raise KeyError /\
  interval_xy points_table plain_grid [(1 # 2, 1 # 2)]%Q
  = Ok ([1 # 2], [1 # 2])%Q /\
  interval_frequency_sum points_table plain_grid [0; 1; 2]%Q [0; 1; 2]%Q
    [[]; [(1 # 2, 1 # 2)]]%Q = Raise ValueError.
Proof. repeat split. Qed.

(** ** The rows of a triangulation *)

Section TriangleRows.

Local Open Scope nat_scope.

Variables sX_aeqd sY_aeqd : list Q.

Lemma item_defined (A : Type) (a : list A) (i : nat) :
  i < length a -> exists v, item a i = Ok v.
Proof.
  intros Hi. unfold item.
  destruct (nth_error a i) eqn:E; [eauto | apply nth_error_None in E; lia].
Qed.

Lemma data_rows_app (l1 l2 : list csv_row) :
  data_rows (l1 ++ l2) = data_rows l1 ++ data_rows l2.
Proof.
  induction l1 as [|[names | r] l1 IH]; simpl; [reflexivity | exact IH|].
  now rewrite IH.
Qed.

Lemma data_rows_map (new : list triangle_row) :
  data_rows (map DataRow new) = new.
Proof. induction new as [|r new IH]; simpl; [reflexivity | now rewrite IH]. Qed.

(** The loop appends one data row per simplex, numbered from [n] on. *)
Lemma triangles_loop_rows (rest : list simplex) :
  forall (n : nat) (row_list out : list csv_row),
    triangles_loop sX_aeqd sY_aeqd n rest row_list = Ok out ->
    exists new,
      out = row_list ++ map DataRow new /\
      rows_from sX_aeqd sY_aeqd n rest new.
Proof.
  induction rest as [|[[i j] k] rest IH]; intros n row_list out Hrun.
  - simpl in Hrun. injection Hrun as <-. exists []. split.
    + now rewrite app_nil_r.
    + split; [reflexivity | intros [|?] r; discriminate].
  - cbn [triangles_loop] in Hrun.
    destruct (item sX_aeqd i) as [x1|] eqn:E1; cbn [bind] in Hrun; [|discriminate].
    destruct (item sX_aeqd j) as [x2|] eqn:E2; cbn [bind] in Hrun; [|discriminate].
    destruct (item sX_aeqd k) as [x3|] eqn:E3; cbn [bind] in Hrun; [|discriminate].
    destruct (item sY_aeqd i) as [y1|] eqn:E4; cbn [bind] in Hrun; [|discriminate].
    destruct (item sY_aeqd j) as [y2|] eqn:E5; cbn [bind] in Hrun; [|discriminate].
    destruct (item sY_aeqd k) as [y3|] eqn:E6; cbn [bind] in Hrun; [|discriminate].
    destruct (IH (S n) _ out Hrun) as (new & -> & Hlen & Hrows).
    exists (TriangleRow n x1 x2 x3 y1 y2 y3 i j k :: new). split.
    + now rewrite <- app_assoc.
    + split; [simpl; now rewrite Hlen|].
      intros [|m] r Hr; simpl in Hr.
      * injection Hr as <-. simpl. rewrite Nat.add_0_r.
        unfold row_from_arrays. simpl. tauto.
      * destruct (Hrows m r Hr) as (Hno & Hs & Hxy).
        split; [lia | split; [exact Hs | exact Hxy]].
Qed.

Lemma triangles_loop_defined (rest : list simplex) :
  forall (n : nat) (row_list : list csv_row),
    Forall (in_range sX_aeqd sY_aeqd) rest ->
    exists out, triangles_loop sX_aeqd sY_aeqd n rest row_list = Ok out.
Proof.
  induction rest as [|[[i j] k] rest IH]; intros n row_list Hr.
  - now exists row_list.
  - inversion Hr as [|t l Ht Hrest]; subst.
    unfold in_range in Ht. destruct Ht as [(Hi & Hj & Hk) (Hi' & Hj' & Hk')].
    cbn [triangles_loop].
    destruct (@item_defined Q sX_aeqd i Hi) as [x1 ->].
    destruct (@item_defined Q sX_aeqd j Hj) as [x2 ->].
    destruct (@item_defined Q sX_aeqd k Hk) as [x3 ->].
    destruct (@item_defined Q sY_aeqd i Hi') as [y1 ->].
    destruct (@item_defined Q sY_aeqd j Hj') as [y2 ->].
    destruct (@item_defined Q sY_aeqd k Hk') as [y3 ->].
    cbn [bind]. now apply IH.
Qed.

(** The loop itself can only fail on an index that is out of range. *)
Lemma triangles_loop_error (rest : list simplex) :
  forall (n : nat) (row_list : list csv_row) (e : exn),
    triangles_loop sX_aeqd sY_aeqd n rest row_list = Raise e -> e = IndexError.
Proof.
  induction rest as [|[[i j] k] rest IH]; intros n row_list e;
    cbn [triangles_loop]; [discriminate|].
  unfold item.
  repeat match goal with
         | |- context [nth_error ?l ?i] =>
             destruct (nth_error l i); cbn [bind];
             [|intros [= <-]; reflexivity]
         end.
  apply IH.
Qed.

End TriangleRows.

(** ** [delaunay_triangulation], one raw file *)

Section OneFileRows.

Local Open Scope nat_scope.

Variable p : list Q -> list Q -> list Q * list Q.
Variable Delaunay : list (Q * Q) -> result (list simplex).

(** The rows of a run are the header and one data row per simplex. *)
Lemma triangulate_file_rows (sLat sLon : list Q) (row_list : list csv_row) :
  triangulate_file p Delaunay sLat sLon = Ok row_list ->
  exists simplices new,
    Delaunay (combine (fst (p sLon sLat)) (snd (p sLon sLat))) = Ok simplices /\
    row_list = HeaderRow header :: map DataRow new /\
    rows_from (fst (p sLon sLat)) (snd (p sLon sLat)) 0 simplices new.
Proof.
  unfold triangulate_file. destruct (p sLon sLat) as [sX sY]. cbn [fst snd].
  destruct (Delaunay (combine sX sY)) as [simplices|e]; cbn [bind];
    [|discriminate].
  intros Hrun. destruct (@triangles_loop_rows sX sY simplices 0 [HeaderRow header] row_list Hrun) as (new & -> & Hrows).
  now exists simplices, new.
Qed.

(** When the routine returns simplices whose indices are indices of the
    points, the rows are produced. *)
Lemma triangulate_file_defined (sLat sLon : list Q) (simplices : list simplex) :
  Delaunay (combine (fst (p sLon sLat)) (snd (p sLon sLat))) = Ok simplices ->
  Forall (in_range (fst (p sLon sLat)) (snd (p sLon sLat))) simplices ->
  exists row_list, triangulate_file p Delaunay sLat sLon = Ok row_list.
Proof.
  unfold triangulate_file. destruct (p sLon sLat) as [sX sY]. cbn [fst snd].
  intros -> Hr. cbn [bind]. now apply triangles_loop_defined.
Qed.

(** C9: in the rows of a run, the stored coordinates of every triangle
    are the entries of the run's projected arrays at the stored vertex
    indices. *)
Theorem triangulation_round_trip (sLat sLon : list Q)
  (row_list : list csv_row) :
  triangulate_file p Delaunay sLat sLon = Ok row_list ->
  forall r, In r (data_rows row_list) ->
    row_from_arrays (fst (p sLon sLat)) (snd (p sLon sLat)) r.
Proof.
  intros Hrun r Hr.
  destruct (@triangulate_file_rows sLat sLon row_list Hrun) as (simplices & new & _ & -> & _ & Hrows).
  simpl in Hr. rewrite data_rows_map in Hr.
  apply In_nth_error in Hr as [k Hk].
  now destruct (Hrows k r Hk) as (_ & _ & Hxy).
Qed.

(** C10: the table of a run is the header followed by one data row per
    triangle, and data row [n] has triangle number [n]. *)
Theorem triangle_numbers_consecutive (sLat sLon : list Q)
  (row_list : list csv_row) :
  triangulate_file p Delaunay sLat sLon = Ok row_list ->
  exists simplices,
    Delaunay (combine (fst (p sLon sLat)) (snd (p sLon sLat))) = Ok simplices /\
    row_list = HeaderRow header :: map DataRow (data_rows row_list) /\
    length (data_rows row_list) = length simplices /\
    forall n, n < length simplices ->
      exists r, nth_error (data_rows row_list) n = Some r /\ no r = n.
Proof.
  intros Hrun.
  destruct (@triangulate_file_rows sLat sLon row_list Hrun) as (simplices & new & HD & -> & Hlen & Hrows).
  exists simplices. simpl. rewrite data_rows_map.
  split; [exact HD | split; [reflexivity | split; [exact Hlen|]]].
  intros n Hn. destruct (nth_error new n) as [r|] eqn:E.
  - exists r. split; [reflexivity|]. now destruct (Hrows n r E) as (-> & _).
  - apply nth_error_None in E. lia.
Qed.


(** The code has no error of its own for too few points: it fails with
    [InsufficientPointsError] only if the routine does. *)
Lemma triangulate_file_no_own_error (sLat sLon : list Q) :
  triangulate_file p Delaunay sLat sLon = Raise InsufficientPointsError ->
  Delaunay (combine (fst (p sLon sLat)) (snd (p sLon sLat)))
  = Raise InsufficientPointsError.
Proof.
  unfold triangulate_file. destruct (p sLon sLat) as [sX sY]. cbn [fst snd].
  destruct (Delaunay (combine sX sY)) as [simplices|e]; cbn [bind].
  - intros Hrun. apply triangles_loop_error in Hrun. discriminate.
  - now intros [= ->].
Qed.

End OneFileRows.

Lemma triangulation_round_trip_witness :
  exists row_list,
    triangulate_file plain_grid reference_Delaunay [0; 0; 1; 3]%Q [0; 2; 0; 3]%Q
    = Ok row_list /\
    forall r, In r (data_rows row_list) ->
      row_from_arrays [0; 2; 0; 3]%Q [0; 0; 1; 3]%Q r.
Proof.
  eexists. split; [vm_compute; reflexivity|].
  apply (@triangulation_round_trip plain_grid reference_Delaunay
           [0; 0; 1; 3]%Q [0; 2; 0; 3]%Q).
  vm_compute. reflexivity.
Defined.

Lemma triangle_numbers_consecutive_witness :
  exists simplices row_list,
    reference_Delaunay [(0, 0); (2, 0); (0, 1); (3, 3)]%Q = Ok simplices /\
    length (data_rows row_list) = length simplices /\
    forall n, (n < length simplices)%nat ->
      exists r, nth_error (data_rows row_list) n = Some r /\ no r = n.
Proof.
  destruct (@triangle_numbers_consecutive plain_grid reference_Delaunay
              [0; 0; 1; 3]%Q [0; 2; 0; 3]%Q
              [HeaderRow header;
               DataRow (TriangleRow 0 0 2 0 0 0 1 0 1 2);
               DataRow (TriangleRow 1 2 0 3 0 1 3 1 2 3)]%Q)
    as (simplices & HD & _ & Hlen & Hno).
  - vm_compute. reflexivity.
  - exists simplices. eexists. split; [exact HD | split; [exact Hlen | exact Hno]].
Defined.




(** * Further properties *)

(** ** Sums of grids *)

Section GridSums.

Local Open Scope nat_scope.

Lemma broadcast_index_in_range (dim i : nat) :
  i < dim -> broadcast_index dim i = i.
Proof.
  intros Hi. unfold broadcast_index.
  destruct (Nat.eqb_spec dim 1); [lia | reflexivity].
Qed.

(** Two grids of one shape are added cell by cell. *)
Lemma np_add_tabulate2 (nx ny : nat) (f g : nat -> nat -> nat) :
  np_add (tabulate2 nx ny f) (tabulate2 nx ny g)
  = Ok (tabulate2 nx ny (fun i j => f i j + g i j)).
Proof.
  unfold np_add. cbn [shape2 tabulate2].
  rewrite !broadcast_dim_same. f_equal.
  apply tabulate2_ext. intros i j Hi Hj.
  rewrite !broadcast_index_in_range by assumption.
  fold (tabulate2 nx ny f). fold (tabulate2 nx ny g).
  now rewrite !cell_tabulate2.
Qed.

Lemma resize_empty (shape : nat * nat) : resize (Arr1 []) shape = zeros shape.
Proof.
  destruct shape as [nx ny]. unfold resize, zeros. cbn [fst snd flat].
  apply tabulate2_ext. intros i j _ _. now destruct (i * ny + j).
Qed.

End GridSums.

(** ** What the summed grid counts *)

Section FrequencyCounts.

Variable Files : Type.
Variable compile_data : Files -> DataFrame.
Variable convert_to_grid : list Q -> list Q -> list Q * list Q.
Variables xbins_map ybins_map : list Q.

Hypothesis xbins_valid : edges_valid xbins_map = true.
Hypothesis ybins_valid : edges_valid ybins_map = true.

Local Notation "'xy_of'" := (interval_xy compile_data convert_to_grid).
Local Notation "'is_loaded'" := (loaded compile_data convert_to_grid).
Local Notation "'paired'" := (paired compile_data convert_to_grid).
Local Notation "'loop'" :=
  (frequency_loop compile_data convert_to_grid xbins_map ybins_map).
Local Notation "'total'" :=
  (interval_frequency_sum compile_data convert_to_grid xbins_map ybins_map).
Local Notation "'covering'" :=
  (covering_count compile_data convert_to_grid xbins_map ybins_map).
Local Notation "'covered'" :=
  (covers_cell compile_data convert_to_grid xbins_map ybins_map).
Local Notation "'nx'" := (length xbins_map - 1)%nat.
Local Notation "'ny'" := (length ybins_map - 1)%nat.

Local Open Scope nat_scope.

Lemma covering_cons (files : Files) (rest : list Files) (i j : nat) :
  covering (files :: rest) i j
  = (if covered i j files then 1 else 0) + covering rest i j.
Proof. unfold covering_count. simpl. now destruct (covered i j files). Qed.

(** The histogram that one loaded interval adds to the sum. *)
Lemma interval_histogram_value (files : Files) (xi yj : list Q) :
  xy_of files = Ok (xi, yj) -> length xi = length yj ->
  exists h,
    coverage_histogram2d (xi, yj) xbins_map ybins_map = Ok h /\
    assign_where (fun c => 0 <? c) 1 h
    = tabulate2 nx ny (fun i j => if covered i j files then 1 else 0).
Proof.
  intros E Hlen. eexists. split.
  - exact (@coverage_histogram2d_value xi yj xbins_map ybins_map
             Hlen xbins_valid ybins_valid).
  - unfold assign_where. rewrite map_cells_tabulate2.
    apply tabulate2_ext. intros i j _ _. unfold covers_cell. rewrite E.
    now destruct (points_in_cell xbins_map ybins_map (xi, yj) i j =? 0).
Qed.

Lemma frequency_loop_counts (rest : list Files) :
  forall (i : nat) (f : nat -> nat -> nat),
    i <> 0 -> paired rest ->
    loop i rest (tabulate2 nx ny f)
    = Ok (tabulate2 nx ny (fun a b => f a b + covering rest a b)).
Proof.
  induction rest as [|files rest IH]; intros i f Hi Hp.
  - simpl. f_equal. apply tabulate2_ext. intros a b _ _.
    unfold covering_count. simpl. lia.
  - assert (Hp' : paired rest).
    { intros g xi yj Hg. apply Hp. now right. }
    cbn [frequency_loop].
    destruct (xy_of files) as [[xi yj]|e] eqn:E.
    + destruct (@interval_histogram_value files xi yj E
                  (Hp files xi yj (or_introl eq_refl) E)) as (h & -> & Hh).
      cbn [bind]. rewrite Hh.
      destruct (Nat.eqb_spec i 0) as [|_]; [contradiction|].
      rewrite np_add_tabulate2. cbn [bind].
      rewrite IH by (try lia; exact Hp'). f_equal.
      apply tabulate2_ext. intros a b _ _. rewrite covering_cons. lia.
    + pose proof (interval_xy_error _ _ _ E) as ->.
      rewrite IH by (try lia; exact Hp'). f_equal.
      apply tabulate2_ext. intros a b _ _. rewrite covering_cons.
      unfold covers_cell. now rewrite E.
Qed.

(** The sum of a list of intervals whose first one is loaded. *)
Lemma frequency_sum_value (first : Files) (rest : list Files) :
  is_loaded first = true -> paired (first :: rest) ->
  total (first :: rest)
  = Ok (tabulate2 nx ny (fun i j => covering (first :: rest) i j)).
Proof.
  intros Hl Hp. unfold loaded in Hl. unfold interval_frequency_sum.
  cbn [frequency_loop].
  destruct (xy_of first) as [[xi yj]|e] eqn:E; [|discriminate].
  destruct (@interval_histogram_value first xi yj E
              (Hp first xi yj (or_introl eq_refl) E)) as (h & -> & Hh).
  cbn [bind Nat.eqb]. rewrite Hh. cbn [shape2 tabulate2].
  fold (tabulate2 nx ny (fun i j => if covered i j first then 1 else 0)).
  rewrite resize_empty. unfold zeros. cbn [fst snd].
  rewrite np_add_tabulate2. cbn [bind].
  rewrite frequency_loop_counts.
  - f_equal. apply tabulate2_ext. intros a b _ _. rewrite covering_cons. lia.
  - lia.
  - intros g xi' yj' Hg. apply Hp. now right.
Qed.

(** X1: when the first interval of the list is loaded, the summed grid
    has the shape of the bins and each of its cells holds the number of
    intervals that have at least one point in that cell. *)
Theorem frequency_sum_counts (first : Files) (rest : list Files) :
  is_loaded first = true -> paired (first :: rest) ->
  exists cells,
    total (first :: rest) = Ok (Arr2 nx ny cells) /\
    forall i j, i < nx -> j < ny ->
      nth j (nth i cells []) 0 = covering (first :: rest) i j.
Proof.
  intros Hl Hp. eexists. split.
  - exact (@frequency_sum_value first rest Hl Hp).
  - intros i j Hi Hj.
    exact (@cell_tabulate2 _ _
             (fun i j => covering (first :: rest) i j) i j Hi Hj).
Qed.

End FrequencyCounts.

Lemma frequency_sum_counts_witness :
  exists cells,
    interval_frequency_sum points_table plain_grid [0; 1; 2]%Q [0; 1; 2]%Q
      [[(1 # 2, 1 # 2)]; []; [(1 # 2, 1 # 2); (3 # 2, 1 # 2)]]%Q
    = Ok (Arr2 2 2 cells) /\
    forall i j, (i < 2)%nat -> (j < 2)%nat ->
      nth j (nth i cells []) 0%nat
      = covering_count points_table plain_grid [0; 1; 2]%Q [0; 1; 2]%Q
          [[(1 # 2, 1 # 2)]; []; [(1 # 2, 1 # 2); (3 # 2, 1 # 2)]]%Q i j.
Proof.
  apply (@frequency_sum_counts (list (Q * Q)) points_table plain_grid
           [0; 1; 2]%Q [0; 1; 2]%Q eq_refl eq_refl
           [(1 # 2, 1 # 2)]%Q [[]; [(1 # 2, 1 # 2); (3 # 2, 1 # 2)]]%Q).
  - reflexivity.
  - apply points_table_paired.
Defined.

(** ** More on the interval sums *)

Section FrequencyEdges.

Variable Files : Type.
Variable compile_data : Files -> DataFrame.
Variable convert_to_grid : list Q -> list Q -> list Q * list Q.
Variables xbins_map ybins_map : list Q.

Hypothesis xbins_valid : edges_valid xbins_map = true.
Hypothesis ybins_valid : edges_valid ybins_map = true.

Local Notation "'is_loaded'" := (loaded compile_data convert_to_grid).
Local Notation "'paired'" := (paired compile_data convert_to_grid).
Local Notation "'loop'" :=
  (frequency_loop compile_data convert_to_grid xbins_map ybins_map).
Local Notation "'total'" :=
  (interval_frequency_sum compile_data convert_to_grid xbins_map ybins_map).
Local Notation "'covering'" :=
  (covering_count compile_data convert_to_grid xbins_map ybins_map).
Local Notation "'covered'" :=
  (covers_cell compile_data convert_to_grid xbins_map ybins_map).

Local Open Scope nat_scope.

Lemma covering_repeat (files : Files) (n i j : nat) :
  covering (repeat files n) i j = if covered i j files then n else 0.
Proof.
  unfold covering_count. induction n as [|n IH]; simpl.
  - now destruct (covered i j files).
  - destruct (covered i j files); simpl; now rewrite IH.
Qed.

Lemma percent_of_all (n : nat) :
  exists p, frequency_percent (S n) (S n) = Some p /\ (p == 100)%Q.
Proof.
  eexists. split; [reflexivity|].
  field. intros E.
  assert (H : (0 < inject_Z (Z.of_nat (S n)))%Q).
  { change 0%Q with (inject_Z 0). rewrite <- Zlt_Qlt. lia. }
  rewrite E in H. discriminate.
Qed.

(** X2: when all the intervals are one and the same loaded interval,
    every cell that is plotted shows 100 percent. *)
Theorem frequency_identical_intervals (files : Files) (n : nat) :
  is_loaded files = true -> paired [files] ->
  exists grid,
    interval_frequency_histogram2d compile_data convert_to_grid
      xbins_map ybins_map (repeat files (S n)) = Ok grid /\
    forall row p, In row grid -> In (Some p) row -> (p == 100)%Q.
Proof.
  intros Hl Hp.
  assert (Hp' : paired (files :: repeat files n)).
  { intros g xi yj [<- | Hg]; [|apply repeat_spec in Hg; subst g];
      apply Hp; now left. }
  unfold interval_frequency_histogram2d.
  change (repeat files (S n)) with (files :: repeat files n).
  rewrite (@frequency_sum_value Files compile_data convert_to_grid
             xbins_map ybins_map xbins_valid ybins_valid
             files (repeat files n) Hl Hp').
  cbn [bind shape2 tabulate2]. eexists. split; [reflexivity|].
  intros row p Hrow Hin.
  apply in_map_iff in Hrow as (j & <- & Hj%in_seq).
  apply in_map_iff in Hin as (i & Hin & Hi%in_seq).
  fold (tabulate2 (length xbins_map - 1) (length ybins_map - 1)
          (fun i j => covering (files :: repeat files n) i j)) in Hin.
  rewrite cell_tabulate2 in Hin by lia.
  change (files :: repeat files n) with (repeat files (S n)) in Hin.
  rewrite covering_repeat, repeat_length in Hin.
  destruct (covered i j files).
  - destruct (percent_of_all n) as (q & Hq & Hq100).
    rewrite Hq in Hin. now injection Hin as <-.
  - discriminate.
Qed.

Lemma frequency_loop_skips (rest : list Files) :
  forall (i : nat) (H : ndarray),
    (forall files, In files rest -> is_loaded files = false) ->
    loop i rest H = Ok H.
Proof.
  induction rest as [|files rest IH]; intros i H Hs; [reflexivity|].
  cbn [frequency_loop].
  rewrite (proj1 (loaded_false compile_data convert_to_grid files)
             (Hs files (or_introl eq_refl))).
  apply IH. intros g Hg. apply Hs. now right.
Qed.

(** X3: when every interval is skipped, the loop ends without an error
    and the sum is still the empty 1-d array it started from. *)
Theorem frequency_all_skipped (interval_list : list Files) :
  (forall files, In files interval_list ->
                 loaded compile_data convert_to_grid files = false) ->
  interval_frequency_sum compile_data convert_to_grid xbins_map ybins_map
    interval_list = Ok (Arr1 []).
Proof. intros Hs. now apply frequency_loop_skips. Qed.

End FrequencyEdges.

Lemma frequency_identical_intervals_witness :
  exists grid,
    interval_frequency_histogram2d points_table plain_grid
      [0; 1; 2]%Q [0; 1; 2]%Q (repeat [(1 # 2, 1 # 2)]%Q 3) = Ok grid /\
    forall row p, In row grid -> In (Some p) row -> (p == 100)%Q.
Proof.
  apply (@frequency_identical_intervals (list (Q * Q)) points_table plain_grid
           [0; 1; 2]%Q [0; 1; 2]%Q eq_refl eq_refl [(1 # 2, 1 # 2)]%Q 2).
  - reflexivity.
  - apply points_table_paired.
Defined.

Lemma frequency_all_skipped_witness :
  interval_frequency_sum points_table plain_grid [0; 1; 2]%Q [0; 1; 2]%Q
    [[]; []] = Ok (Arr1 []).
Proof.
  apply (@frequency_all_skipped (list (Q * Q)) points_table plain_grid
           [0; 1; 2]%Q [0; 1; 2]%Q [[]; []]).
  intros files [<- | [<- | []]]; reflexivity.
Defined.

(** ** Fewer pairs of dates than intervals *)

Section ShortDates.

Variables Files Date : Type.
Variable compile_data : Files -> DataFrame.
Variable convert_to_grid : list Q -> list Q -> list Q * list Q.
Variables xbins_map ybins_map : list Q.

Hypothesis xbins_valid : edges_valid xbins_map = true.
Hypothesis ybins_valid : edges_valid ybins_map = true.

Local Notation "'xy_of'" := (interval_xy compile_data convert_to_grid).
Local Notation "'is_loaded'" := (loaded compile_data convert_to_grid).
Local Notation "'paired'" := (paired compile_data convert_to_grid).
Local Notation "'loop'" :=
  (@timeseries_loop Files Date compile_data convert_to_grid xbins_map ybins_map).

Local Open Scope nat_scope.

Lemma timeseries_loop_short (area : Q) (files : Files) (after : list Files)
  (before : list Files) :
  forall (dates_rest done : list (Date * Date)) (i : nat)
         (df : list (timeseries_row Date)),
    length done = i -> length dates_rest = length before ->
    paired (before ++ [files]) -> is_loaded files = true ->
    loop area (done ++ dates_rest) i (before ++ files :: after) df
    = Raise IndexError.
Proof.
  induction before as [|g before IH]; intros dates_rest done i df Hi Hlen Hp Hl.
  - destruct dates_rest; [|discriminate]. rewrite app_nil_r.
    cbn [app timeseries_loop]. unfold loaded in Hl.
    destruct (xy_of files) as [[xi yj]|e] eqn:E; [|discriminate].
    rewrite (@coverage_histogram2d_value xi yj xbins_map ybins_map
               (Hp files xi yj (or_introl eq_refl) E) xbins_valid ybins_valid).
    cbn [bind]. unfold item.
    rewrite (proj2 (nth_error_None done i)) by lia. reflexivity.
  - destruct dates_rest as [|dates dates_rest]; [discriminate|].
    assert (Hp' : paired (before ++ [files])).
    { intros f xi yj Hf. apply Hp. now right. }
    assert (Hnext : forall df',
               loop area (done ++ dates :: dates_rest) (S i)
                 (before ++ files :: after) df' = Raise IndexError).
    { intros df'. replace (done ++ dates :: dates_rest)
        with ((done ++ [dates]) ++ dates_rest) by now rewrite <- app_assoc.
      apply IH; [rewrite length_app; simpl; lia | simpl in Hlen; lia
                | exact Hp' | exact Hl]. }
    cbn [app timeseries_loop].
    destruct (xy_of g) as [[xi yj]|e] eqn:E.
    + rewrite (@coverage_histogram2d_value xi yj xbins_map ybins_map
                 (Hp g xi yj (or_introl eq_refl) E) xbins_valid ybins_valid).
      cbn [bind]. unfold item. rewrite nth_error_app2 by lia.
      replace (i - length done) with 0 by lia. cbn [nth_error bind].
      apply Hnext.
    + pose proof (interval_xy_error _ _ _ E) as ->. apply Hnext.
Qed.


End ShortDates.


(** ** The simplices in the table *)

Section RowsAndSimplices.

Local Open Scope nat_scope.

Variable p : list Q -> list Q -> list Q * list Q.
Variable Delaunay : list (Q * Q) -> result (list simplex).

Lemma map_by_index (A B : Type) (f : A -> B) (l : list A) :
  forall l' : list B,
    length l = length l' ->
    (forall k r, nth_error l k = Some r -> nth_error l' k = Some (f r)) ->
    map f l = l'.
Proof.
  induction l as [|a l IH]; intros [|b l'] Hlen H; try discriminate;
    [reflexivity|].
  simpl. f_equal.
  - specialize (H 0 a eq_refl). simpl in H. now injection H.
  - apply IH; [simpl in Hlen; lia|]. intros k r Hk. exact (H (S k) r Hk).
Qed.

Lemma item_in_range (A : Type) (a : list A) (i : nat) (v : A) :
  item a i = Ok v -> i < length a.
Proof.
  unfold item. destruct (nth_error a i) eqn:E; [|discriminate].
  intros _. apply nth_error_Some. congruence.
Qed.

(** X5: the vertex indices stored in the data rows of a run, read in
    order, are the simplices that the Delaunay routine returned. *)
Theorem rows_store_simplices (sLat sLon : list Q) (row_list : list csv_row) :
  triangulate_file p Delaunay sLat sLon = Ok row_list ->
  Delaunay (combine (fst (p sLon sLat)) (snd (p sLon sLat)))
  = Ok (map row_vertices (data_rows row_list)).
Proof.
  intros Hrun.
  destruct (@triangulate_file_rows p Delaunay sLat sLon row_list Hrun)
    as (simplices & new & HD & -> & Hlen & Hrows).
  simpl. rewrite data_rows_map, HD. f_equal. symmetry.
  apply map_by_index; [exact Hlen|].
  intros k r Hk. now destruct (Hrows k r Hk) as (_ & Hs & _).
Qed.

(** X6: when the Delaunay routine returns simplices, the rows are
    produced if every vertex index is an index of the projected arrays,
    and the run fails with [IndexError] if not. *)
Theorem triangulate_file_in_range (sLat sLon : list Q)
  (simplices : list simplex) :
  Delaunay (combine (fst (p sLon sLat)) (snd (p sLon sLat))) = Ok simplices ->
  (Forall (in_range (fst (p sLon sLat)) (snd (p sLon sLat))) simplices /\
   exists row_list, triangulate_file p Delaunay sLat sLon = Ok row_list) \/
  (~ Forall (in_range (fst (p sLon sLat)) (snd (p sLon sLat))) simplices /\
   triangulate_file p Delaunay sLat sLon = Raise IndexError).
Proof.
  intros HD.
  destruct (triangulate_file p Delaunay sLat sLon) as [row_list|e] eqn:Hrun.
  - left. split; [|now exists row_list].
    destruct (@triangulate_file_rows p Delaunay sLat sLon row_list Hrun)
      as (simplices' & new & HD' & _ & Hlen & Hrows).
    rewrite HD in HD'. injection HD' as <-.
    apply Forall_forall. intros t Ht.
    apply In_nth_error in Ht as [k Hk].
    destruct (nth_error new k) as [r|] eqn:Hr.
    + destruct (Hrows k r Hr) as (_ & Hs & H1 & H2 & H3 & H4 & H5 & H6).
      rewrite Hk in Hs. injection Hs as ->. unfold in_range.
      repeat split; eapply item_in_range; eassumption.
    + apply nth_error_None in Hr.
      assert (k < length simplices) by (apply nth_error_Some; congruence). lia.
  - right. split.
    + intros Hall.
      destruct (@triangulate_file_defined p Delaunay sLat sLon simplices HD Hall)
        as [row_list Hok].
      congruence.
    + f_equal. revert Hrun. unfold triangulate_file.
      destruct (p sLon sLat) as [sX sY]. cbn [fst snd] in HD. rewrite HD.
      cbn [bind]. apply triangles_loop_error.
Qed.

End RowsAndSimplices.

Lemma rows_store_simplices_witness :
  reference_Delaunay [(0, 0); (2, 0); (0, 1); (3, 3)]%Q
  = Ok (map row_vertices
          (data_rows
             [HeaderRow header;
              DataRow (TriangleRow 0 0 2 0 0 0 1 0 1 2);
              DataRow (TriangleRow 1 2 0 3 0 1 3 1 2 3)]%Q)).
Proof.
  apply (@rows_store_simplices plain_grid reference_Delaunay
           [0; 0; 1; 3]%Q [0; 2; 0; 3]%Q).
  vm_compute. reflexivity.
Defined.

Lemma triangulate_file_in_range_witness :
  (Forall (in_range [0; 2; 0; 3]%Q [0; 0; 1; 3]%Q) [(0, 1, 2); (1, 2, 3)]%nat /\
   exists row_list,
     triangulate_file plain_grid reference_Delaunay
       [0; 0; 1; 3]%Q [0; 2; 0; 3]%Q = Ok row_list) \/
  (~ Forall (in_range [0; 2; 0; 3]%Q [0; 0; 1; 3]%Q) [(0, 1, 2); (1, 2, 3)]%nat /\
   triangulate_file plain_grid reference_Delaunay
     [0; 0; 1; 3]%Q [0; 2; 0; 3]%Q = Raise IndexError).
Proof.
  apply (@triangulate_file_in_range plain_grid reference_Delaunay
           [0; 0; 1; 3]%Q [0; 2; 0; 3]%Q [(0, 1, 2); (1, 2, 3)]%nat).
  vm_compute. reflexivity.
Defined.

(** ** More on [get_map_bins] *)

Section MoreMapBins.

Local Open Scope Q_scope.

Lemma arange_axis_nonzero (mn mx : Q) (n : Z) :
  mn < mx -> n <> 0%Z ->
  let d := fdiv (Fin (mx - mn)) (Fin (inject_Z n)) in
  arange (Fin mn) (fadd (Fin mx) d) d
  = Ok (arange_values mn ((mx - mn) / inject_Z n) (Z.to_nat (n + 1))).
Proof.
  intros Hlt Hn d. subst d.
  assert (Hn' : ~ inject_Z n == 0).
  { intros E. apply Hn. now apply (inject_Z_injective n 0). }
  assert (He : ~ mx - mn == 0).
  { intros E. apply (Qlt_irrefl mn). setoid_replace mn with mx at 2; [exact Hlt|].
    rewrite <- (Qplus_0_l mn). rewrite <- E. ring. }
  assert (Hd : ~ (mx - mn) / inject_Z n == 0).
  { intros E. apply He.
    setoid_replace (mx - mn) with ((mx - mn) / inject_Z n * inject_Z n)
      by (field; exact Hn').
    rewrite E. ring. }
  unfold fdiv at 1 2. rewrite (is_zero_false Hn').
  unfold arange. cbn [fadd fsub fneg fdiv]. rewrite (is_zero_false Hd).
  do 2 f_equal. f_equal.
  rewrite <- (Qceiling_Z (n + 1)). apply Qceiling_comp.
  rewrite inject_Z_plus. field. split; [exact Hn' | exact He].
Qed.

Lemma negative_bins (scale : Z) (R : Q) :
  (0 < scale)%Z -> R < 0 -> (Qfloor (inject_Z scale / (1000 * R)) < 0)%Z.
Proof.
  intros Hs HR.
  assert (HR0 : ~ R == 0) by (intros E; rewrite E in HR; discriminate).
  assert (HmR : 0 < - R) by exact (Qopp_lt_compat R 0 HR).
  assert (Hpos : 0 < inject_Z scale / (1000 * - R)).
  { apply Qlt_shift_div_l.
    - rewrite <- (Qmult_0_r 1000). apply Qmult_lt_l; [reflexivity | exact HmR].
    - rewrite Qmult_0_l. now apply inject_Z_pos. }
  assert (Hneg : inject_Z scale / (1000 * R) < 0).
  { setoid_replace (inject_Z scale / (1000 * R))
      with (- (inject_Z scale / (1000 * - R))) by (field; exact HR0).
    exact (Qopp_lt_compat 0 _ Hpos). }
  rewrite Zlt_Qlt.
  eapply Qle_lt_trans; [apply Qfloor_le | exact Hneg].
Qed.






Lemma fold_min_In (a : list Q) (x : Q) : In (fold_left Qmin a x) (x :: a).
Proof.
  revert x. induction a as [|z a IH]; intros x; [now left|].
  cbn [fold_left]. destruct (IH (Qmin x z)) as [E | Hin].
  - rewrite <- E. unfold Qmin, GenericMinMax.gmin.
    destruct (x ?= z); [left | left | right; left]; reflexivity.
  - right. now right.
Qed.

Lemma fold_max_In (a : list Q) (x : Q) : In (fold_left Qmax a x) (x :: a).
Proof.
  revert x. induction a as [|z a IH]; intros x; [now left|].
  cbn [fold_left]. destruct (IH (Qmax x z)) as [E | Hin].
  - rewrite <- E. unfold Qmax, GenericMinMax.gmax.
    destruct (x ?= z); [left | right; left | left]; reflexivity.
  - right. now right.
Qed.

(** [np.arange] on an axis whose step is zero or not a number. *)
Lemma arange_flat_axis (mn mx : Q) (n : Z) :
  mx - mn == 0 ->
  let d := fdiv (Fin (mx - mn)) (Fin (inject_Z n)) in
  arange (Fin mn) (fadd (Fin mx) d) d = Raise ValueError.
Proof.
  intros He d. subst d. unfold fdiv at 1 2.
  destruct (is_zero (inject_Z n)) eqn:En.
  - rewrite (Qeq_eq_bool _ _ He : is_zero (mx - mn) = true). reflexivity.
  - assert (Hd : (mx - mn) / inject_Z n == 0).
    { rewrite He. unfold Qdiv. apply Qmult_0_l. }
    unfold arange. cbn [fadd fsub fneg fdiv].
    rewrite (Qeq_eq_bool _ _ Hd : is_zero ((mx - mn) / inject_Z n) = true).
    assert (Ht : mx + (mx - mn) / inject_Z n + - mn == 0).
    { setoid_replace (mx + (mx - mn) / inject_Z n + - mn)
        with ((mx - mn) + (mx - mn) / inject_Z n) by ring.
      rewrite Hd, He. reflexivity. }
    rewrite (Qeq_eq_bool _ _ Ht : is_zero _ = true). reflexivity.
Qed.



End MoreMapBins.

(** ** Point sets and their coverage *)

Section CoverageOfPoints.

Local Open Scope nat_scope.

Variables xbins_map ybins_map : list Q.

Hypothesis xbins_valid : edges_valid xbins_map = true.
Hypothesis ybins_valid : edges_valid ybins_map = true.

Local Notation "'nx'" := (length xbins_map - 1)%nat.
Local Notation "'ny'" := (length ybins_map - 1)%nat.
Local Notation "'points'" := (points_in_cell xbins_map ybins_map).

Lemma combine_app_eq (A B : Type) (l1 l2 : list A) (m1 m2 : list B) :
  length l1 = length m1 ->
  combine (l1 ++ l2) (m1 ++ m2) = combine l1 m1 ++ combine l2 m2.
Proof.
  revert m1. induction l1 as [|a l1 IH]; intros [|b m1] Hlen;
    try discriminate; [reflexivity|].
  simpl. f_equal. apply IH. simpl in Hlen. lia.
Qed.

Lemma points_in_cell_app (xi yj xi' yj' : list Q) (i j : nat) :
  length xi = length yj ->
  points (xi ++ xi', yj ++ yj') i j = points (xi, yj) i j + points (xi', yj') i j.
Proof.
  intros Hlen. unfold points_in_cell. cbn [fst snd].
  now rewrite (@combine_app_eq Q Q xi xi' yj yj' Hlen), filter_app, length_app.
Qed.

(** X11: the coverage of two point sets taken together is the sum of
    their two coverages, clamped to 1 again. *)
Theorem coverage_of_union (xi yj xi' yj' : list Q) :
  length xi = length yj -> length xi' = length yj' ->
  exists H H' S,
    coverage_histogram2d (xi, yj) xbins_map ybins_map = Ok H /\
    coverage_histogram2d (xi', yj') xbins_map ybins_map = Ok H' /\
    np_add H H' = Ok S /\
    coverage_histogram2d (xi ++ xi', yj ++ yj') xbins_map ybins_map
    = Ok (assign_where (fun c => 1 <? c) 1 S).
Proof.
  intros Hlen Hlen'.
  assert (Hlen'' : length (xi ++ xi') = length (yj ++ yj')).
  { rewrite !length_app. lia. }
  eexists _, _, _.
  split; [exact (@coverage_histogram2d_value xi yj xbins_map ybins_map
                   Hlen xbins_valid ybins_valid)|].
  split; [exact (@coverage_histogram2d_value xi' yj' xbins_map ybins_map
                   Hlen' xbins_valid ybins_valid)|].
  split; [apply np_add_tabulate2|].
  rewrite (@coverage_histogram2d_value _ _ xbins_map ybins_map
             Hlen'' xbins_valid ybins_valid).
  unfold assign_where. rewrite map_cells_tabulate2. f_equal.
  apply tabulate2_ext. intros i j _ _.
  rewrite (@points_in_cell_app xi yj xi' yj' i j Hlen).
  destruct (points (xi, yj) i j), (points (xi', yj') i j); reflexivity.
Qed.

Lemma in_bin_below (edges : list Q) (v : Q) (i : nat) :
  (forall e, In e edges -> (v < e)%Q) -> in_bin edges i v = false.
Proof.
  intros Hb. unfold in_bin.
  destruct (nth_error edges i) as [lo|] eqn:Hlo; [|reflexivity].
  destruct (nth_error edges (S i)) as [hi|]; [|reflexivity].
  apply nth_error_In in Hlo. specialize (Hb lo Hlo).
  destruct (Qle_bool lo v) eqn:E; [|reflexivity].
  apply Qle_bool_iff in E. exfalso. exact (Qlt_not_le _ _ Hb E).
Qed.

Lemma in_bin_above (edges : list Q) (v : Q) (i : nat) :
  (forall e, In e edges -> (e < v)%Q) -> in_bin edges i v = false.
Proof.
  intros Ha. unfold in_bin.
  destruct (nth_error edges i) as [lo|]; [|reflexivity].
  destruct (nth_error edges (S i)) as [hi|] eqn:Hhi; [|reflexivity].
  apply nth_error_In in Hhi. specialize (Ha hi Hhi).
  assert (E1 : Qle_bool hi v = true) by now apply Qle_bool_iff, Qlt_le_weak.
  assert (E2 : Qeq_bool v hi = false).
  { destruct (Qeq_bool v hi) eqn:E; [|reflexivity].
    apply Qeq_bool_eq in E. rewrite E in Ha. exfalso. exact (Qlt_irrefl _ Ha). }
  rewrite E1, E2. cbn [negb orb]. rewrite andb_false_r. apply andb_false_r.
Qed.

(** A coordinate that is below every edge of an axis, or above every
    edge. *)
Lemma in_bin_outside (edges : list Q) (v : Q) (i : nat) :
  (forall e, In e edges -> (v < e)%Q) \/ (forall e, In e edges -> (e < v)%Q) ->
  in_bin edges i v = false.
Proof. intros [H | H]; [now apply in_bin_below | now apply in_bin_above]. Qed.

(** X12: a point that lies outside the range of the edges on one of
    the two axes is dropped: the coverage is the coverage of the other
    points. *)
Theorem coverage_drops_outside (x y : Q) (xi yj : list Q) :
  length xi = length yj ->
  ((forall e, In e xbins_map -> (x < e)%Q) \/
   (forall e, In e xbins_map -> (e < x)%Q)) \/
  ((forall e, In e ybins_map -> (y < e)%Q) \/
   (forall e, In e ybins_map -> (e < y)%Q)) ->
  coverage_histogram2d (x :: xi, y :: yj) xbins_map ybins_map
  = coverage_histogram2d (xi, yj) xbins_map ybins_map.
Proof.
  intros Hlen Hout.
  assert (Hlen' : length (x :: xi) = length (y :: yj)) by (simpl; lia).
  rewrite (@coverage_histogram2d_value _ _ xbins_map ybins_map
             Hlen' xbins_valid ybins_valid).
  rewrite (@coverage_histogram2d_value _ _ xbins_map ybins_map
             Hlen xbins_valid ybins_valid).
  f_equal. apply tabulate2_ext. intros i j _ _.
  unfold points_in_cell. cbn [fst snd combine filter].
  destruct Hout as [Hx | Hy].
  - now rewrite (@in_bin_outside xbins_map x i Hx).
  - rewrite (@in_bin_outside ybins_map y j Hy). now rewrite andb_false_r.
Qed.

Lemma in_bin_last_edge (edges : list Q) (v : Q) :
  edges_valid edges = true -> 2 <= length edges -> (v == last edges 0)%Q ->
  in_bin edges (length edges - 2) v = true.
Proof.
  intros [Hm Hne]%edges_valid_inv Hlen Hv. unfold in_bin.
  pose proof (last_nth_error 0 Hne) as Hlast.
  replace (S (length edges - 2)) with (length edges - 1) by lia.
  rewrite Hlast.
  destruct (nth_error edges (length edges - 2)) as [lo|] eqn:Hlo;
    [|apply nth_error_None in Hlo; lia].
  assert (Hle : (lo <= last edges 0)%Q).
  { apply (@monotone_nth edges (length edges - 2) (length edges - 1));
      [exact Hm | lia | exact Hlo | exact Hlast]. }
  rewrite <- Hv in Hle. apply Qle_bool_iff in Hle. rewrite Hle.
  rewrite (Qeq_eq_bool _ _ Hv).
  replace (S (length edges - 1)) with (length edges) by lia.
  rewrite Nat.eqb_refl. cbn [andb]. apply orb_true_r.
Qed.

Lemma points_in_cell_head (x y : Q) (xi yj : list Q) (i j : nat) :
  in_bin xbins_map i x = true -> in_bin ybins_map j y = true ->
  points (x :: xi, y :: yj) i j = S (points (xi, yj) i j).
Proof.
  intros Hx Hy. unfold points_in_cell. cbn [fst snd combine filter].
  now rewrite Hx, Hy.
Qed.

(** X13: a point on the last edge of the x axis is not dropped: it is
    counted in the last bin of that axis. *)
Theorem coverage_counts_last_edge (x y : Q) (xi yj : list Q) (j : nat) :
  length xi = length yj -> 2 <= length xbins_map ->
  (x == last xbins_map 0)%Q ->
  j < ny -> in_bin ybins_map j y = true ->
  exists rows,
    coverage_histogram2d (x :: xi, y :: yj) xbins_map ybins_map
    = Ok (Arr2 nx ny rows) /\
    nth j (nth (nx - 1) rows []) 0 = 1.
Proof.
  intros Hlen Hx2 Hx Hj Hy.
  assert (Hlen' : length (x :: xi) = length (y :: yj)) by (simpl; lia).
  eexists. split.
  - exact (@coverage_histogram2d_value _ _ xbins_map ybins_map
             Hlen' xbins_valid ybins_valid).
  - assert (Hi : nx - 1 < nx) by lia.
    pose proof (@cell_tabulate2 nx ny
                  (fun i j =>
                     if points (x :: xi, y :: yj) i j =? 0 then 0 else 1)
                  (nx - 1) j Hi Hj) as Hc.
    etransitivity; [exact Hc|]. cbv beta.
    replace (nx - 1) with (length xbins_map - 2) by lia.
    now rewrite (@points_in_cell_head x y xi yj (length xbins_map - 2) j
                   (@in_bin_last_edge xbins_map x xbins_valid Hx2 Hx) Hy).
Qed.

End CoverageOfPoints.

Lemma coverage_of_union_witness :
  exists H H' S,
    coverage_histogram2d ([1 # 2], [1 # 2])%Q [0; 1; 2]%Q [0; 1; 2]%Q = Ok H /\
    coverage_histogram2d ([1 # 2; 3 # 2], [1 # 2; 1 # 2])%Q
      [0; 1; 2]%Q [0; 1; 2]%Q = Ok H' /\
    np_add H H' = Ok S /\
    coverage_histogram2d ([1 # 2] ++ [1 # 2; 3 # 2],
                          [1 # 2] ++ [1 # 2; 1 # 2])%Q [0; 1; 2]%Q [0; 1; 2]%Q
    = Ok (assign_where (fun c => 1 <? c)%nat 1%nat S).
Proof.
  apply (@coverage_of_union [0; 1; 2]%Q [0; 1; 2]%Q eq_refl eq_refl
           [1 # 2]%Q [1 # 2]%Q [1 # 2; 3 # 2]%Q [1 # 2; 1 # 2]%Q);
    reflexivity.
Defined.

Lemma coverage_drops_outside_witness :
  coverage_histogram2d (7 :: [1 # 2], 1 :: [1 # 2])%Q [0; 1; 2]%Q [0; 1; 2]%Q
  = coverage_histogram2d ([1 # 2], [1 # 2])%Q [0; 1; 2]%Q [0; 1; 2]%Q.
Proof.
  apply (@coverage_drops_outside [0; 1; 2]%Q [0; 1; 2]%Q eq_refl eq_refl
           7%Q 1%Q [1 # 2]%Q [1 # 2]%Q).
  - reflexivity.
  - left. right. intros e [<- | [<- | [<- | []]]]; reflexivity.
Defined.

Lemma coverage_counts_last_edge_witness :
  exists rows,
    coverage_histogram2d (2 :: [], (1 # 2) :: [])%Q [0; 1; 2]%Q [0; 1; 2]%Q
    = Ok (Arr2 2 2 rows) /\
    nth 0 (nth 1 rows []) 0%nat = 1%nat.
Proof.
  apply (@coverage_counts_last_edge [0; 1; 2]%Q [0; 1; 2]%Q eq_refl eq_refl
           2%Q (1 # 2)%Q [] [] 0%nat).
  - reflexivity.
  - simpl. lia.
  - reflexivity.
  - simpl. lia.
  - reflexivity.
Defined.

(** ** The bins of the delta-time histogram *)

Section DeltaTimeBins.

Import DatasetsDt.
Local Open Scope Z_scope.

Lemma item_last (A : Type) (pre : list A) (top : A) :
  item (pre ++ [top]) (length (pre ++ [top]) - 1) = Ok top.
Proof.
  unfold item. rewrite length_app. simpl.
  rewrite nth_error_app2 by lia.
  replace (length pre + 1 - 1 - length pre)%nat with 0%nat by lia.
  reflexivity.
Qed.

Lemma inject_Z_le_floor (z : Z) (q : Q) : (inject_Z z <= q)%Q -> z <= Qfloor q.
Proof. intros H. apply Qfloor_resp_le in H. now rewrite Qfloor_Z in H. Qed.

(** With enough fuel the loop ends, having added [k] bins of width 12
    until the last edge is above the largest item. *)
Lemma extend_bins_run (dt_list : list Q) (largest : Q) :
  py_max dt_list = Ok largest ->
  forall (fuel : nat) (pre : list Z) (top : Z),
    (Z.to_nat (Qfloor largest - top + 1) < fuel)%nat ->
    exists k : nat,
      extend_bins fuel dt_list (pre ++ [top])
      = Some (Ok (pre ++ map (fun i => top + 12 * Z.of_nat i) (seq 0 (S k)))) /\
      (largest < inject_Z (top + 12 * Z.of_nat k))%Q /\
      (k <> 0%nat -> (inject_Z (top + 12 * (Z.of_nat k - 1)) <= largest)%Q).
Proof.
  intros Hmax. induction fuel as [|fuel IH]; intros pre top Hfuel; [lia|].
  cbn [extend_bins]. rewrite item_last, Hmax.
  destruct (Qle_bool (inject_Z top) largest) eqn:E.
  - apply Qle_bool_iff in E. pose proof (@inject_Z_le_floor top largest E) as Hfl.
    destruct (IH (pre ++ [top]) (top + 12)) as (k & Hrun & Hlt & Hle); [lia|].
    exists (S k). split; [|split].
    + rewrite Hrun. do 2 f_equal. rewrite <- app_assoc. f_equal.
      change (seq 0 (S (S k))) with (0%nat :: seq 1 (S k)).
      cbn [map app]. f_equal; [f_equal; lia|].
      rewrite <- seq_shift, map_map. apply map_ext. intros i. lia.
    + replace (top + 12 * Z.of_nat (S k)) with (top + 12 + 12 * Z.of_nat k)
        by lia.
      exact Hlt.
    + intros _. destruct k as [|k].
      * replace (top + 12 * (Z.of_nat 1 - 1)) with top by lia. exact E.
      * replace (top + 12 * (Z.of_nat (S (S k)) - 1))
          with (top + 12 + 12 * (Z.of_nat (S k) - 1)) by lia.
        apply Hle. discriminate.
  - exists 0%nat. split; [|split].
    + do 3 f_equal. cbn [seq map]. f_equal. lia.
    + replace (top + 12 * Z.of_nat 0) with top by lia.
      now apply Qle_bool_false.
    + congruence.
Qed.

(** X14: for a list of delta times that is not empty the loop ends,
    whatever number of tests is allowed beyond a bound; the bins are 0,
    6 and then steps of 12; every delta time is below the last edge;
    and no bin is added needlessly: when bins were added, some delta
    time is at or above the last edge but one. *)
Theorem delta_time_bins_cover (dt_list : list Q) :
  dt_list <> [] ->
  exists (bound k : nat),
    (forall fuel, (bound <= fuel)%nat ->
       delta_time_bins fuel dt_list
       = Some (Ok (0 :: map (fun i => 6 + 12 * Z.of_nat i) (seq 0 (S k))))) /\
    (forall dt, In dt dt_list -> (dt < inject_Z (6 + 12 * Z.of_nat k))%Q) /\
    (k <> 0%nat ->
     exists dt, In dt dt_list /\
                (inject_Z (6 + 12 * (Z.of_nat k - 1)) <= dt)%Q).
Proof.
  intros Hne. destruct dt_list as [|x dt_list]; [congruence|].
  set (largest := fold_left Qmax dt_list x).
  assert (Hmax : py_max (x :: dt_list) = Ok largest) by reflexivity.
  set (bound := S (Z.to_nat (Qfloor largest - 6 + 1))).
  destruct (@extend_bins_run (x :: dt_list) largest Hmax bound [0] 6)
    as (k & Hrun & Hlt & Hle); [unfold bound; lia|].
  exists bound, k. split; [|split].
  - intros fuel Hfuel.
    destruct (@extend_bins_run (x :: dt_list) largest Hmax fuel [0] 6)
      as (k' & Hrun' & Hlt' & Hle'); [unfold bound in Hfuel; lia|].
    assert (k' = k).
    { destruct (Nat.lt_trichotomy k' k) as [H | [H | H]]; [exfalso | exact H | exfalso].
      - assert (Hk : k <> 0%nat) by lia. specialize (Hle Hk).
        apply (Qlt_irrefl largest). eapply Qlt_le_trans; [exact Hlt'|].
        eapply Qle_trans; [|exact Hle]. rewrite <- Zle_Qle. lia.
      - assert (Hk : k' <> 0%nat) by lia. specialize (Hle' Hk).
        apply (Qlt_irrefl largest). eapply Qlt_le_trans; [exact Hlt|].
        eapply Qle_trans; [|exact Hle']. rewrite <- Zle_Qle. lia. }
    subst k'. exact Hrun'.
  - intros dt Hdt. eapply Qle_lt_trans; [|exact Hlt].
    destruct (fold_max_ge dt_list x) as [H1 H2].
    destruct Hdt as [<- | Hdt]; [exact H1 | now apply H2].
  - intros Hk. exists largest. split; [apply fold_max_In | exact (Hle Hk)].
Qed.

Lemma delta_time_bins_cover_witness :
  exists (bound k : nat),
    (forall fuel, (bound <= fuel)%nat ->
       delta_time_bins fuel [3; 20; 7 # 2]%Q
       = Some (Ok (0 :: map (fun i => 6 + 12 * Z.of_nat i) (seq 0 (S k))))) /\
    (forall dt, In dt [3; 20; 7 # 2]%Q ->
       (dt < inject_Z (6 + 12 * Z.of_nat k))%Q) /\
    (k <> 0%nat ->
     exists dt, In dt [3; 20; 7 # 2]%Q /\
                (inject_Z (6 + 12 * (Z.of_nat k - 1)) <= dt)%Q).
Proof.
  apply (@delta_time_bins_cover [3; 20; 7 # 2]%Q). discriminate.
Defined.

End DeltaTimeBins.

(** ** The script *)

Section ScriptRuns.

Import Script.

Variables Files Date : Type.
Variable divide_intervals : Files -> list Files * list (Date * Date).
Variable compile_data : Files -> DataFrame.
Variable convert_to_grid : list Q -> list Q -> list Q * list Q.

Local Notation "'run'" :=
  (@main Files Date divide_intervals compile_data convert_to_grid).
Local Notation "'xy_of'" := (interval_xy compile_data convert_to_grid).

(** X15: with [visualise_interval] set to ["True"] and
    [visualise_timeseries] not, the script never completes, because
    [interval_list] is bound only under the first test, whose second
    comparison is with the Boolean; when the master data and the bins
    are fine it ends with a [NameError]. *)
Theorem main_interval_only (visualise_timeseries : string) (resolution : Z)
  (raw_list : Files) :
  String.eqb visualise_timeseries "True" = false ->
  (forall made, run visualise_timeseries "True"%string resolution raw_list
                <> Done made) /\
  (forall xy bins,
      xy_of raw_list = Ok xy ->
      get_map_bins xy (inject_Z resolution) = Ok bins ->
      run visualise_timeseries "True"%string resolution raw_list = NameError).
Proof.
  intros Hts. unfold main. rewrite Hts. cbn [orb equals_True String.eqb].
  split.
  - intros made.
    destruct (xy_of raw_list) as [xy|e]; cbn [lift and_then]; [|discriminate].
    destruct (get_map_bins xy (inject_Z resolution)) as [bins|e];
      cbn [lift and_then]; discriminate.
  - intros xy bins Hxy Hbins. rewrite Hxy. cbn [lift and_then].
    rewrite Hbins. reflexivity.
Qed.


End ScriptRuns.

Lemma main_interval_only_witness :
  Script.main (fun raw : list (Q * Q) => ([raw], [(1, 2)]%nat))
    points_table plain_grid "False" "True" 3000 [(0, 0); (6, 3)]%Q
  = Script.NameError.
Proof.
  apply (proj2 (@main_interval_only (list (Q * Q)) (nat)
                  (fun raw => ([raw], [(1, 2)]%nat)) points_table plain_grid
                  "False"%string 3000%Z [(0, 0); (6, 3)]%Q eq_refl)
           ([0; 6], [0; 3])%Q ([0 # 2; 6 # 2; 12 # 2], [0 # 2; 3 # 2; 6 # 2])%Q).
  - reflexivity.
  - vm_compute. reflexivity.
Defined.


(** ** The order of the points *)

Section PointOrder.

Local Open Scope nat_scope.

Variables xbins_map ybins_map : list Q.

Hypothesis xbins_valid : edges_valid xbins_map = true.
Hypothesis ybins_valid : edges_valid ybins_map = true.

Lemma combine_fst_snd (A B : Type) (l : list (A * B)) :
  combine (map fst l) (map snd l) = l.
Proof. induction l as [|[a b] l IH]; simpl; [reflexivity | now rewrite IH]. Qed.

Lemma filter_length_perm (A : Type) (f : A -> bool) (l l' : list A) :
  Permutation l l' -> length (filter f l) = length (filter f l').
Proof.
  induction 1 as [| a l l' _ IH | a b l | l l' l'' _ IH1 _ IH2]; simpl.
  - reflexivity.
  - destruct (f a); simpl; now rewrite IH.
  - destruct (f a), (f b); reflexivity.
  - now rewrite IH1.
Qed.

(** X17: the coverage does not depend on the order in which the points
    are given. *)
Theorem coverage_order_free (points points' : list (Q * Q)) :
  Permutation points points' ->
  coverage_histogram2d (map fst points, map snd points) xbins_map ybins_map
  = coverage_histogram2d (map fst points', map snd points')
      xbins_map ybins_map.
Proof.
  intros Hperm.
  assert (Hlen : forall l : list (Q * Q),
             length (map fst l) = length (map snd l)).
  { intros l. now rewrite !length_map. }
  rewrite !(fun l => @coverage_histogram2d_value (map fst l) (map snd l)
                       xbins_map ybins_map (Hlen l) xbins_valid ybins_valid).
  f_equal. apply tabulate2_ext. intros i j _ _.
  unfold points_in_cell. cbn [fst snd]. rewrite !combine_fst_snd.
  now rewrite (filter_length_perm _ Hperm).
Qed.

End PointOrder.

Lemma coverage_order_free_witness :
  coverage_histogram2d
    (map fst [(1 # 2, 1 # 2); (3 # 2, 1 # 2)]%Q,
     map snd [(1 # 2, 1 # 2); (3 # 2, 1 # 2)]%Q) [0; 1; 2]%Q [0; 1; 2]%Q
  = coverage_histogram2d
      (map fst [(3 # 2, 1 # 2); (1 # 2, 1 # 2)]%Q,
       map snd [(3 # 2, 1 # 2); (1 # 2, 1 # 2)]%Q) [0; 1; 2]%Q [0; 1; 2]%Q.
Proof.
  apply (@coverage_order_free [0; 1; 2]%Q [0; 1; 2]%Q eq_refl eq_refl
           [(1 # 2, 1 # 2); (3 # 2, 1 # 2)]%Q
           [(3 # 2, 1 # 2); (1 # 2, 1 # 2)]%Q).
  apply perm_swap.
Defined.

Lemma frequency_first_skipped_witness :
  interval_frequency_sum points_table plain_grid [0; 1; 2]%Q [0; 1; 2]%Q
    ([] :: [[]; [(1 # 2, 1 # 2)]%Q]) = Raise ValueError.
Proof.
  apply (@frequency_first_skipped (list (Q * Q)) points_table plain_grid
           [0; 1; 2]%Q [0; 1; 2]%Q eq_refl eq_refl [] [[]; [(1 # 2, 1 # 2)]%Q]).
  - reflexivity.
  - simpl. lia.
  - apply points_table_paired.
  - exists [(1 # 2, 1 # 2)]%Q. split; [simpl; tauto | reflexivity].
Defined.

Lemma interval_frequency_percentages_witness :
  exists grid,
    interval_frequency_histogram2d points_table plain_grid
      [0; 1; 2]%Q [0; 1; 2]%Q
      [[(1 # 2, 1 # 2)]; []; [(1 # 2, 1 # 2); (3 # 2, 1 # 2)]]%Q = Ok grid /\
    forall row p, In row grid -> In (Some p) row -> (0 < p /\ p <= 100)%Q.
Proof.
  eexists. split; [vm_compute; reflexivity|].
  apply (@interval_frequency_percentages (list (Q * Q)) points_table plain_grid
           [0; 1; 2]%Q [0; 1; 2]%Q
           [[(1 # 2, 1 # 2)]; []; [(1 # 2, 1 # 2); (3 # 2, 1 # 2)]]%Q).
  vm_compute. reflexivity.
Defined.
